(** * AlgoBackend: the order-management engine of [tests/tradetest.py]

    A shallow embedding of [OrderManager] (tick evaluation, order intake,
    modification, cancellation, completion) together with the properties
    of its specification.

    Conventions of the embedding.
    - Python dictionaries used as maps are [gmap]s; the dictionaries that
      describe one order, one tick or one modification are records.
    - Prices are finite numbers; the only operations on them are the
      comparisons [<=] and [>=], which are exact, so prices are rationals.
      A price that is [None] or missing is [None : option Q]; the
      comparison that needs it raises ([TypeError] for [None], [KeyError]
      for a missing key; the record does not tell the two apart).
    - A method is a function from the world before the call to the world
      after it (and a result when the caller can observe one).  An
      exception does not undo the assignments made before it was raised,
      so [Raise] comes with the world reached.
    - What the outside does (the broker accepting an order, the database
      being reachable, the live token lookup) is read from an [Env].
    - A [World] is what one process sees: [order_cache] is a plain
      in-process cache, so it is the copy of the process that runs the
      method, and the broker trace lists the calls that process makes.
      The dictionary the cache hands out is the one it holds, and an
      assignment to a key of that dictionary is an update of the cache
      entry.  [orders], [orders_by_instrument], [tick_data] and
      [subscribed_instruments] are [Manager()] proxies: reading an entry
      hands out a copy, and only an assignment through the proxy changes
      what is stored.  Queues carry copies.
    - Capacity and time-to-live eviction of the [cachetools] caches are
      not represented: no property below depends on an entry vanishing by
      itself. *)

From Stdlib Require Import ZArith QArith Lia.
From stdpp Require Import base strings list gmap.

Local Open Scope string_scope.
Local Open Scope Z_scope.

(** ** Exceptions and results *)

Inductive exn : Type :=
| KeyError
| TypeError
| AttributeError
| KiteException
| DatabaseError.

Inductive result (A : Type) : Type :=
| Ok (a : A)
| Raise (e : exn).
Arguments Ok {A} a.
Arguments Raise {A} e.

(** ** Orders, ticks, modifications *)

Record Order : Type := mkOrder {
  order_id : Z;
  trading_symbol : string;
  instrument_token : option Z;
  quantity : Z;
  order_type : string;
  limit_price : option Q;
  trigger_price : option Q;
  variety : string;
  product : string;
  validity : string;
  operation : string;
  execution_limit : Z;
  executions_done : Z;
  triggered : bool
}.

Record Tick : Type := mkTick {
  tick_instrument_token : Z;
  last_price : Q;
  last_traded_time : Z
}.

(** The keys [modify_order] reads from [new_details]. *)
Record Details : Type := mkDetails {
  d_trading_symbol : string;
  d_quantity : Z;
  d_order_type : string;
  d_limit_price : option Q;
  d_trigger_price : option Q;
  d_variety : string;
  d_product : string;
  d_validity : string;
  d_operation : string
}.

(** [order['executions_done'] = n] *)
Definition with_executions_done (n : Z) (o : Order) : Order :=
  mkOrder (order_id o) (trading_symbol o) (instrument_token o) (quantity o)
          (order_type o) (limit_price o) (trigger_price o) (variety o)
          (product o) (validity o) (operation o) (execution_limit o)
          n (triggered o).

(** [order['executions_done'] += 1] *)
Definition incr_executions (o : Order) : Order :=
  with_executions_done (executions_done o + 1) o.

(** [order_details['instrument_token'] = instrument_token] *)
Definition with_instrument_token (t : Z) (o : Order) : Order :=
  mkOrder (order_id o) (trading_symbol o) (Some t) (quantity o)
          (order_type o) (limit_price o) (trigger_price o) (variety o)
          (product o) (validity o) (operation o) (execution_limit o)
          (executions_done o) (triggered o).

(** [order.update(new_details)] *)
Definition update_details (d : Details) (o : Order) : Order :=
  mkOrder (order_id o) (d_trading_symbol d) (instrument_token o) (d_quantity d)
          (d_order_type d) (d_limit_price d) (d_trigger_price d) (d_variety d)
          (d_product d) (d_validity d) (d_operation d) (execution_limit o)
          (executions_done o) (triggered o).

(** ** Trigger evaluation (lines 476-491 of [_check_and_execute_order]) *)

(** [a <= b] and [a >= b] where [b] is read from the order.  A price that
    is [None] makes the comparison raise [TypeError]; a price whose key is
    missing makes the subscript raise [KeyError].  [None : option Q] stands
    for both, and the exception written here is the one of the first case:
    no statement below says which of the two is raised. *)
Definition py_le (a : Q) (b : option Q) : result bool :=
  match b with
  | Some b => Ok (Qle_bool a b)
  | None => Raise TypeError
  end.

Definition py_ge (a : Q) (b : option Q) : result bool :=
  match b with
  | Some b => Ok (Qle_bool b a)
  | None => Raise TypeError
  end.

(** Python's [x and y], [x or y]: the right operand is evaluated only when
    the left one does not decide. *)
Definition py_and (a : bool) (b : result bool) : result bool :=
  if a then b else Ok false.

Definition py_or (a b : result bool) : result bool :=
  match a with
  | Ok true => Ok true
  | Ok false => b
  | Raise e => Raise e
  end.

Definition should_execute (order : Order) (current_price : Q) : result bool :=
  if (order_type order =? "MARKET")%string then Ok true
  else if (order_type order =? "LIMIT")%string then
    py_or (py_and (operation order =? "BUY")%string
                  (py_le current_price (limit_price order)))
          (py_and (operation order =? "SELL")%string
                  (py_ge current_price (limit_price order)))
  else if (order_type order =? "SL")%string || (order_type order =? "SL-M")%string then
    if (operation order =? "BUY")%string
    then py_ge current_price (trigger_price order)
    else py_le current_price (trigger_price order)
  else Ok false.

(** ** The durable store *)

(** A row of [pending_orders]: the columns written by [_db_insert_order]
    (kept as the order they were copied from), the status and the columns
    the later updates set.  Time stamps ([NOW()]) are left out. *)
Record PendingRow : Type := mkRow {
  row_order : Order;
  row_status : string;
  row_last_execution_price : option Q;
  row_exchange_order_id : option string
}.

Record Database : Type := mkDatabase {
  pending_orders : gmap Z PendingRow;
  order_executions : list (Z * Q);
  instruments : gmap string Z
}.

Definition with_pending (f : gmap Z PendingRow → gmap Z PendingRow)
    (d : Database) : Database :=
  mkDatabase (f (pending_orders d)) (order_executions d) (instruments d).

(** [UPDATE pending_orders SET status = %s, completion_time = NOW()
     WHERE order_id = %s].  [completion_time] is a time stamp and no
    column of [PendingRow]: what is said below of a row after this update
    is said of its other columns. *)
Definition sql_set_status (id : Z) (status : string) (d : Database) : Database :=
  with_pending
    (alter (λ r, mkRow (row_order r) status (row_last_execution_price r)
                       (row_exchange_order_id r)) id) d.

(** The [UPDATE] of [_check_and_execute_order].  MySQL evaluates the
    assignments of a single-table [UPDATE] from left to right, so the
    [CASE] reads the counter already incremented. *)
Definition sql_count_execution (price : Q) (r : PendingRow) : PendingRow :=
  let o := incr_executions (row_order r) in
  mkRow o
        (if (execution_limit o <=? executions_done o)
         then "COMPLETED" else "PARTIALLY_EXECUTED")
        (Some price) (row_exchange_order_id r).

(** [INSERT INTO order_executions ...] followed by the [UPDATE]. *)
Definition sql_record_execution (id : Z) (price : Q) (d : Database) : Database :=
  mkDatabase (alter (sql_count_execution price) id (pending_orders d))
             ((order_executions d ++ [(id, price)])%list)
             (instruments d).

(** Rows matched by [WHERE order_id = %s AND status = 'PENDING']. *)
Definition pending_row (id : Z) (d : Database) : option PendingRow :=
  match pending_orders d !! id with
  | Some r => if (row_status r =? "PENDING")%string then Some r else None
  | None => None
  end.

(** ** The order manager *)

(** Jobs of [db_queue]: the function handed to the queue with its
    arguments ([_db_insert_order], [_db_update_order_status]). *)
Inductive DbJob : Type :=
| JobInsertOrder (o : Order)
| JobUpdateOrderStatus (id : Z) (status : string) (exchange_order_id : option string).

Record OrderManager : Type := mkManager {
  instrument_cache : gmap string Z;
  token_memo : gmap string Z;
  tick_cache : gmap Z (Q * Z);
  order_cache : gmap Z Order;
  orders : gmap Z Order;
  tick_data : gmap Z (option Q);
  orders_by_instrument : gmap Z (list Z);
  order_queue : list Order;
  db_queue : list DbJob;
  subscribed_instruments : list Z;
  connection_ready : bool
}.

(** One call of [kite.place_order]: the arguments, the order it was made
    for, and whether the broker accepted it. *)
Record Placement : Type := mkPlacement {
  p_order_id : Z;
  p_variety : string;
  p_exchange : string;
  p_tradingsymbol : string;
  p_transaction_type : string;
  p_quantity : Z;
  p_product : string;
  p_order_type : string;
  p_validity : string;
  p_accepted : bool
}.

Inductive Level : Type := DEBUG | INFO | WARNING | ERROR.

Record World : Type := mkWorld {
  mem : OrderManager;
  store : Database;
  broker : list Placement;
  feed : list (list Z);
  log : list Level
}.

(** Places where a [DatabaseConnection] is opened. *)
Inductive DbSite : Type :=
| AtExecution (id : Z)
| AtCompletion (id : Z)
| AtModify (id : Z)
| AtCancel (id : Z).

Record Env : Type := mkEnv {
  kite_ltp : string → option Z;
  place_order_ok : Z → bool;
  db_ok : DbSite → bool;
  subscribe_ok : bool;
  now : Z
}.

(** *** Assignments to one component *)

Definition on_mem (f : OrderManager → OrderManager) (w : World) : World :=
  mkWorld (f (mem w)) (store w) (broker w) (feed w) (log w).

Definition on_store (f : Database → Database) (w : World) : World :=
  mkWorld (mem w) (f (store w)) (broker w) (feed w) (log w).

Definition calls_broker (p : Placement) (w : World) : World :=
  mkWorld (mem w) (store w) ((broker w ++ [p])%list) (feed w) (log w).

Definition calls_subscribe (l : list Z) (w : World) : World :=
  mkWorld (mem w) (store w) (broker w) ((feed w ++ [l])%list) (log w).

Definition logs (l : Level) (w : World) : World :=
  mkWorld (mem w) (store w) (broker w) (feed w) ((log w ++ [l])%list).

Definition set_instrument_cache (f : gmap string Z → gmap string Z)
    (m : OrderManager) : OrderManager :=
  mkManager (f (instrument_cache m)) (token_memo m) (tick_cache m)
            (order_cache m) (orders m) (tick_data m) (orders_by_instrument m)
            (order_queue m) (db_queue m) (subscribed_instruments m)
            (connection_ready m).

Definition set_token_memo (f : gmap string Z → gmap string Z)
    (m : OrderManager) : OrderManager :=
  mkManager (instrument_cache m) (f (token_memo m)) (tick_cache m)
            (order_cache m) (orders m) (tick_data m) (orders_by_instrument m)
            (order_queue m) (db_queue m) (subscribed_instruments m)
            (connection_ready m).

Definition set_tick_cache (f : gmap Z (Q * Z) → gmap Z (Q * Z))
    (m : OrderManager) : OrderManager :=
  mkManager (instrument_cache m) (token_memo m) (f (tick_cache m))
            (order_cache m) (orders m) (tick_data m) (orders_by_instrument m)
            (order_queue m) (db_queue m) (subscribed_instruments m)
            (connection_ready m).

Definition set_order_cache (f : gmap Z Order → gmap Z Order)
    (m : OrderManager) : OrderManager :=
  mkManager (instrument_cache m) (token_memo m) (tick_cache m)
            (f (order_cache m)) (orders m) (tick_data m) (orders_by_instrument m)
            (order_queue m) (db_queue m) (subscribed_instruments m)
            (connection_ready m).

Definition set_orders (f : gmap Z Order → gmap Z Order)
    (m : OrderManager) : OrderManager :=
  mkManager (instrument_cache m) (token_memo m) (tick_cache m)
            (order_cache m) (f (orders m)) (tick_data m) (orders_by_instrument m)
            (order_queue m) (db_queue m) (subscribed_instruments m)
            (connection_ready m).

Definition set_tick_data (f : gmap Z (option Q) → gmap Z (option Q))
    (m : OrderManager) : OrderManager :=
  mkManager (instrument_cache m) (token_memo m) (tick_cache m)
            (order_cache m) (orders m) (f (tick_data m)) (orders_by_instrument m)
            (order_queue m) (db_queue m) (subscribed_instruments m)
            (connection_ready m).

Definition set_order_queue (f : list Order → list Order)
    (m : OrderManager) : OrderManager :=
  mkManager (instrument_cache m) (token_memo m) (tick_cache m)
            (order_cache m) (orders m) (tick_data m) (orders_by_instrument m)
            (f (order_queue m)) (db_queue m) (subscribed_instruments m)
            (connection_ready m).

Definition set_subscribed_instruments (f : list Z → list Z)
    (m : OrderManager) : OrderManager :=
  mkManager (instrument_cache m) (token_memo m) (tick_cache m)
            (order_cache m) (orders m) (tick_data m) (orders_by_instrument m)
            (order_queue m) (db_queue m) (f (subscribed_instruments m))
            (connection_ready m).

(** ** Completion and tick evaluation *)

(** [_complete_order]: the status is written through a connection of its
    own; the order is deleted from the shared [orders] dictionary.  Neither
    [order_cache] nor [orders_by_instrument] is touched.  Every exception is
    caught and logged. *)
Definition _complete_order (env : Env) (id : Z) (status : string)
    (w : World) : World :=
  let w := logs INFO w in
  if db_ok env (AtCompletion id) then
    on_mem (set_orders (delete id)) (on_store (sql_set_status id status) w)
  else logs ERROR w.

Definition placement_of (id : Z) (order : Order) (accepted : bool) : Placement :=
  mkPlacement id (variety order) "NSE" (trading_symbol order)
              (operation order) (quantity order) (product order)
              (order_type order) (validity order) accepted.

(** [_check_and_execute_order].  [order] is the dictionary held by
    [order_cache] under [id] (the caller obtained it with
    [self.order_cache.get(order_id)]), so the in-place increment is an
    update of that entry. *)
Definition _check_and_execute_order (env : Env) (id : Z) (order : Order)
    (tick : Tick) (w : World) : World :=
  if (execution_limit order <=? executions_done order)%Z then
    _complete_order env id "COMPLETED" (logs INFO w)
  else
    let current_price := last_price tick in
    match should_execute order current_price with
    | Raise _ => logs ERROR w
    | Ok false => w
    | Ok true =>
      let w := logs INFO w in
      let w := calls_broker (placement_of id order (place_order_ok env id)) w in
      if place_order_ok env id then
        let order := incr_executions order in
        let w := on_mem (set_order_cache (<[id := order]>)) w in
        if db_ok env (AtExecution id) then
          let w := on_store (sql_record_execution id current_price) w in
          if (execution_limit order <=? executions_done order)%Z
          then _complete_order env id "COMPLETED" w
          else on_mem (set_orders (<[id := order]>)) w
        else logs ERROR w
      else logs ERROR w
    end.

(** One iteration of the loop of [_process_tick_data]. *)
Definition evaluate_indexed (env : Env) (tick : Tick) (w : World) (id : Z)
    : World :=
  match order_cache (mem w) !! id with
  | Some order =>
    if triggered order then w
    else _check_and_execute_order env id order tick w
  | None => w
  end.

Definition _process_tick_data (env : Env) (tick : Tick) (w : World) : World :=
  let token := tick_instrument_token tick in
  let w := on_mem (set_tick_cache (<[token := (last_price tick, now env)]>)) w in
  let w := on_mem (set_tick_data (<[token := Some (last_price tick)]>)) w in
  let order_ids := default [] (orders_by_instrument (mem w) !! token) in
  foldl (evaluate_indexed env tick) w order_ids.

(** The ticks one process hands to [_process_tick_data], one after the
    other, against its own [order_cache]; each tick meets its own
    environment. *)
Definition run_ticks (ticks : list (Env * Tick)) (w : World) : World :=
  foldl (λ w et, _process_tick_data et.1 et.2 w) w ticks.

(** ** Order intake *)

(** [_get_instrument_token], under [functools.lru_cache]: a symbol resolved
    before is answered from the memo; a raised exception is not memoised. *)
Definition _get_instrument_token (env : Env) (sym : string) (w : World)
    : result Z * World :=
  match token_memo (mem w) !! sym with
  | Some t => (Ok t, w)
  | None =>
    match instrument_cache (mem w) !! sym with
    | Some t => (Ok t, on_mem (set_token_memo (<[sym := t]>)) w)
    | None =>
      match kite_ltp env sym with
      | Some t =>
        (Ok t, on_mem (set_token_memo (<[sym := t]>))
                 (on_mem (set_instrument_cache (<[sym := t]>)) w))
      | None => (Raise KiteException, logs ERROR w)
      end
    end
  end.

Definition subscribe_instruments (env : Env) (insts : list Z) (w : World)
    : result unit * World :=
  if negb (connection_ready (mem w)) then (Ok (), logs WARNING w)
  else
    let new_instruments :=
      filter (λ i, i ∉ subscribed_instruments (mem w)) insts in
    match new_instruments with
    | [] => (Ok (), w)
    | _ =>
      let w := logs INFO w in
      if subscribe_ok env then
        let w := calls_subscribe new_instruments w in
        let w := on_mem (set_subscribed_instruments (λ l, (l ++ new_instruments)%list)) w in
        let w := on_mem (set_tick_data
                   (λ td, foldl (λ td i, <[i := None]> td) td new_instruments)) w in
        (Ok (), w)
      else (Raise KiteException, logs ERROR w)
    end.

(** [self.db_queue.put((operation, args))], where [operation] is a bound
    method of the manager.  A [multiprocessing.Queue] pickles what it is
    given in its feeder thread; a bound method is pickled with its object,
    and the manager (its queues, events, proxies, ticker) cannot be
    pickled, so the feeder thread drops the job.  The caller sees no
    exception and the queue is as it was. *)
Definition put_db_job (job : DbJob) (w : World) : World := w.

Definition add_order (env : Env) (order_details : Order) (w : World)
    : result unit * World :=
  match _get_instrument_token env (trading_symbol order_details) w with
  | (Raise e, w) => (Raise e, logs ERROR w)
  | (Ok token, w) =>
    let order_details := with_instrument_token token order_details in
    let w := on_mem (set_order_cache (<[order_id order_details := order_details]>)) w in
    let w := put_db_job (JobInsertOrder order_details) w in
    let w := on_mem (set_order_queue (λ q, (q ++ [order_details])%list)) w in
    if bool_decide (token ∈ subscribed_instruments (mem w)) then (Ok (), w)
    else
      match subscribe_instruments env [token] w with
      | (Raise e, w) => (Raise e, logs ERROR w)
      | (Ok u, w) => (Ok u, w)
      end
  end.

(** The worker loops.  [_handle_incoming_orders] and [_db_worker] (and
    [_tick_worker]) begin with
    [logger.info(f"Starting ... {Process.current_process().name}")].  The
    class [multiprocessing.Process] has no attribute [current_process],
    so building the message raises [AttributeError] before the loop is
    entered; nothing catches it, and nothing has been read or written. *)
Definition _handle_incoming_orders (w : World) : result unit * World :=
  (Raise AttributeError, w).

Definition _db_worker (w : World) : result unit * World :=
  (Raise AttributeError, w).

(** [on_order_update]: the status pushed by the broker is handed to
    [db_queue]; a terminal one completes the order at once. *)
Definition on_order_update (env : Env) (id : Z) (status : string)
    (exchange_order_id : option string) (w : World) : World :=
  match orders (mem w) !! id with
  | None => w
  | Some _ =>
    let w := logs INFO w in
    let w := put_db_job (JobUpdateOrderStatus id status exchange_order_id) w in
    if bool_decide (status ∈ ["COMPLETE"; "REJECTED"; "CANCELLED"])
    then _complete_order env id status w
    else w
  end.

(** ** Modification and cancellation *)

(** The [UPDATE ... WHERE order_id = %s AND status = 'PENDING'] of
    [modify_order], applied to a row that matches. *)
Definition sql_modify (id : Z) (d : Details) (db : Database) : Database :=
  with_pending
    (alter (λ r, mkRow (update_details d (row_order r)) (row_status r)
                       (row_last_execution_price r) (row_exchange_order_id r)) id) db.

(** [modify_order].  [self.orders] is a [Manager().dict()] proxy: indexing
    it hands out a copy of the stored dictionary, so
    [self.orders[order_id].update(new_details)] merges into that copy,
    which is then dropped (the tick path assigns back with
    [self.orders[order_id] = order]; this one does not).  A missing key
    raises inside the connection scope, which rolls the update back. *)
Definition modify_order (env : Env) (id : Z) (new_details : Details)
    (w : World) : result unit * World :=
  let w := logs INFO w in
  if db_ok env (AtModify id) then
    match pending_row id (store w) with
    | Some _ =>
      match orders (mem w) !! id with
      | Some _ => (Ok (), logs INFO (on_store (sql_modify id new_details) w))
      | None => (Raise KeyError, logs ERROR w)
      end
    | None => (Ok (), logs WARNING w)
    end
  else (Raise DatabaseError, logs ERROR w).

Definition cancel_order (env : Env) (id : Z) (w : World) : result unit * World :=
  let w := logs INFO w in
  if db_ok env (AtCancel id) then
    match pending_row id (store w) with
    | Some _ =>
      (Ok (), logs INFO (on_mem (set_orders (delete id))
                           (on_store (sql_set_status id "CANCELLED") w)))
    | None => (Ok (), logs WARNING w)
    end
  else (Raise DatabaseError, logs ERROR w).

(** ** Two tick workers on one order

    [_tick_worker] runs in several processes that drain one queue, and
    [_check_and_execute_order] takes no lock.  The call of
    [kite.place_order] is synchronous: while one worker waits for it,
    another can evaluate the same order.  An evaluation is therefore split
    at the return of that call into two steps, each taken at once. *)

(** Up to the return of [kite.place_order]; [true] when the worker goes on
    to the increment. *)
Definition execute_begin (env : Env) (id : Z) (order : Order) (tick : Tick)
    (w : World) : bool * World :=
  if (execution_limit order <=? executions_done order) then
    (false, _complete_order env id "COMPLETED" (logs INFO w))
  else
    match should_execute order (last_price tick) with
    | Raise _ => (false, logs ERROR w)
    | Ok false => (false, w)
    | Ok true =>
      let w := logs INFO w in
      let w := calls_broker (placement_of id order (place_order_ok env id)) w in
      if place_order_ok env id then (true, w) else (false, logs ERROR w)
    end.

(** From the increment on.  The dictionary the worker holds is the one in
    [order_cache]; the increment reads the counter it has now.  The two
    workers are taken to share that dictionary, as threads of one process
    would; as separate processes each holds a copy and increments its
    own, which changes the final counter and not the calls made. *)
Definition execute_finish (env : Env) (id : Z) (tick : Tick) (w : World)
    : World :=
  match order_cache (mem w) !! id with
  | None => w
  | Some order =>
    let order := incr_executions order in
    let w := on_mem (set_order_cache (<[id := order]>)) w in
    if db_ok env (AtExecution id) then
      let w := on_store (sql_record_execution id (last_price tick)) w in
      if (execution_limit order <=? executions_done order)
      then _complete_order env id "COMPLETED" w
      else on_mem (set_orders (<[id := order]>)) w
    else logs ERROR w
  end.

(** Where a worker is with the tick it popped. *)
Inductive Task : Type :=
| Popped (tick : Tick)
| Placed (tick : Tick)
| Finished.

Record Config : Type := mkConfig {
  world : World;
  tasks : list Task
}.

(** Worker [i] takes its next step in the evaluation of order [id]. *)
Definition worker_step (env : Env) (id : Z) (c : Config) (i : nat) : Config :=
  match tasks c !! i with
  | Some (Popped tick) =>
    match order_cache (mem (world c)) !! id with
    | Some order =>
      if triggered order then mkConfig (world c) (<[i := Finished]> (tasks c))
      else
        let '(go, w) := execute_begin env id order tick (world c) in
        mkConfig w (<[i := if go then Placed tick else Finished]> (tasks c))
    | None => mkConfig (world c) (<[i := Finished]> (tasks c))
    end
  | Some (Placed tick) =>
    mkConfig (execute_finish env id tick (world c)) (<[i := Finished]> (tasks c))
  | Some Finished | None => c
  end.

Definition run_schedule (env : Env) (id : Z) (schedule : list nat)
    (c : Config) : Config :=
  foldl (worker_step env id) c schedule.

(** ** The resolution order of the specification

    What section 4.3 of the specification describes, to be compared with
    [_get_instrument_token]: the instrument-token cache, on a miss the
    durable store, on a miss the live lookup; a miss populates the cache
    with the token found. *)
Definition resolve_as_specified (env : Env) (sym : string) (w : World)
    : result Z * World :=
  match instrument_cache (mem w) !! sym with
  | Some t => (Ok t, w)
  | None =>
    match instruments (store w) !! sym with
    | Some t => (Ok t, on_mem (set_instrument_cache (<[sym := t]>)) w)
    | None =>
      match kite_ltp env sym with
      | Some t => (Ok t, on_mem (set_instrument_cache (<[sym := t]>)) w)
      | None => (Raise KiteException, w)
      end
    end
  end.

(** ** Invariants of the order cache *)

(** [o'] is [o] after some executions: same order, a counter that did not
    go down and did not pass the limit unless it was there before. *)
Definition counted_up (o o' : Order) : Prop :=
  o' = with_executions_done (executions_done o') o ∧
  executions_done o ≤ executions_done o' ∧
  executions_done o' ≤ Z.max (executions_done o) (execution_limit o).

(** The entry of [id] in [order_cache] is [o] after some executions. *)
Definition cache_counted_up (id : Z) (o : Order) (w : World) : Prop :=
  ∃ o', order_cache (mem w) !! id = Some o' ∧ counted_up o o'.

(** ** Observations on the trace of broker calls *)

(** The calls of [kite.place_order] made for one order. *)
Definition placements_for (id : Z) (trace : list Placement) : list Placement :=
  filter (λ p, p_order_id p = id) trace.

(** The calls made for one order that the broker accepted. *)
Definition accepted_for (id : Z) (trace : list Placement) : list Placement :=
  filter (λ p, p_accepted p = true) (placements_for id trace).

(** The entry of [id] is [o] after some executions, each of them matched by
    one accepted placement since the trace had [n] of them. *)
Definition placements_counted (id : Z) (o : Order) (n : nat) (w : World) : Prop :=
  ∃ o', order_cache (mem w) !! id = Some o' ∧ counted_up o o' ∧
        Z.of_nat (length (accepted_for id (broker w)))
          = Z.of_nat n + (executions_done o' - executions_done o).

(** ** The rest of the manager

    The feed callbacks, the tick cache and the start-up load, which the
    operations above rely on. *)

(** [_cache_tick_data], the first statement of [_process_tick_data]. *)
Definition _cache_tick_data (env : Env) (tick : Tick) (w : World) : World :=
  on_mem (set_tick_cache
            (<[tick_instrument_token tick := (last_price tick, now env)]>)) w.

(** [_get_cached_tick]: the cached price and the time it was cached at. *)
Definition _get_cached_tick (token : Z) (w : World) : option (Q * Z) :=
  tick_cache (mem w) !! token.

Definition set_connection_ready (b : bool) (m : OrderManager) : OrderManager :=
  mkManager (instrument_cache m) (token_memo m) (tick_cache m)
            (order_cache m) (orders m) (tick_data m) (orders_by_instrument m)
            (order_queue m) (db_queue m) (subscribed_instruments m) b.

(** [on_connect]: the ready flag is set and the instruments on record are
    subscribed again.  Nothing catches an exception of [ticker.subscribe]
    here.  The call of [ticker.set_mode] that follows is not traced. *)
Definition on_connect (env : Env) (w : World) : result unit * World :=
  let w := logs INFO w in
  let w := on_mem (set_connection_ready true) w in
  match subscribed_instruments (mem w) with
  | [] => (Ok (), w)
  | l =>
    if subscribe_ok env then (Ok (), logs INFO (calls_subscribe l w))
    else (Raise KiteException, w)
  end.

(** [on_close] *)
Definition on_close (w : World) : World :=
  on_mem (set_connection_ready false) (logs WARNING w).

(** The statuses [_init_caches] selects. *)
Definition active_status (s : string) : bool :=
  (s =? "PENDING")%string || (s =? "PARTIALLY_EXECUTED")%string.

(** The dictionary a row of [pending_orders] is read back as: the table has
    no column for [triggered]. *)
Definition order_of_row (r : PendingRow) : Order :=
  let o := row_order r in
  mkOrder (order_id o) (trading_symbol o) (instrument_token o) (quantity o)
          (order_type o) (limit_price o) (trigger_price o) (variety o)
          (product o) (validity o) (operation o) (execution_limit o)
          (executions_done o) false.

(** [_init_caches]: the active rows go into [order_cache], then the
    instruments table into [instrument_cache]; an exception is logged and
    leaves the caches as far as they were filled.  [db_up] tells whether
    the connection can be opened, [instruments_ok] whether the [SELECT] on
    the instruments table succeeds (it names a column [trading_symbol];
    the table created by [app/database.py] has [tradingsymbol]). *)
Definition _init_caches (db_up instruments_ok : bool) (w : World) : World :=
  if db_up then
    let rows := filter (λ kr, active_status (row_status kr.2) = true)
                       (pending_orders (store w)) in
    let w := on_mem (set_order_cache (λ c, (order_of_row <$> rows) ∪ c)) w in
    if instruments_ok
    then on_mem (set_instrument_cache (λ c, instruments (store w) ∪ c)) w
    else logs ERROR w
  else logs ERROR w.

(** The manager as [__init__] leaves it before [_init_caches] runs: empty
    caches, dictionaries and queues, the ready flag not set. *)
Definition constructed (d : Database) : World :=
  mkWorld (mkManager ∅ ∅ ∅ ∅ ∅ ∅ ∅ [] [] [] false) d [] [] [].

(** [m'] differs from [m] at most in [order_cache] and [orders]. *)
Definition same_outside_orders (m m' : OrderManager) : Prop :=
  instrument_cache m' = instrument_cache m ∧
  token_memo m' = token_memo m ∧
  tick_cache m' = tick_cache m ∧
  tick_data m' = tick_data m ∧
  orders_by_instrument m' = orders_by_instrument m ∧
  order_queue m' = order_queue m ∧
  db_queue m' = db_queue m ∧
  subscribed_instruments m' = subscribed_instruments m ∧
  connection_ready m' = connection_ready m.

(** Nothing observable about orders differs between [w] and [w']: same
    order cache, same [orders], same store, same broker trace. *)
Definition same_orders (w w' : World) : Prop :=
  order_cache (mem w') = order_cache (mem w) ∧
  orders (mem w') = orders (mem w) ∧
  store w' = store w ∧
  broker w' = broker w.

(** Nothing that belongs to order [id] differs between [w] and [w']: its
    entry in [order_cache] and in [orders], its row, the calls made for it. *)
Definition untouched (id : Z) (w w' : World) : Prop :=
  order_cache (mem w') !! id = order_cache (mem w) !! id ∧
  orders (mem w') !! id = orders (mem w) !! id ∧
  pending_orders (store w') !! id = pending_orders (store w) !! id ∧
  placements_for id (broker w') = placements_for id (broker w).

(** [w'] differs from [w] at most in the token caches and the log. *)
Definition same_but_token_caches (w w' : World) : Prop :=
  tick_cache (mem w') = tick_cache (mem w) ∧
  order_cache (mem w') = order_cache (mem w) ∧
  orders (mem w') = orders (mem w) ∧
  tick_data (mem w') = tick_data (mem w) ∧
  orders_by_instrument (mem w') = orders_by_instrument (mem w) ∧
  order_queue (mem w') = order_queue (mem w) ∧
  db_queue (mem w') = db_queue (mem w) ∧
  subscribed_instruments (mem w') = subscribed_instruments (mem w) ∧
  connection_ready (mem w') = connection_ready (mem w) ∧
  store w' = store w ∧ broker w' = broker w ∧ feed w' = feed w.

(** The world [add_order] has built when it turns to the subscription:
    the order, with its token, cached and on the indexing queue. *)
Definition admitted (t : Z) (order_details : Order) (w : World) : World :=
  let od := with_instrument_token t order_details in
  on_mem (set_order_queue (λ q, (q ++ [od])%list))
    (on_mem (set_order_cache (<[order_id od := od]>)) w).

(** What tick evaluation reads and what it tells the broker: order cache,
    index and broker trace. *)
Definition same_for_ticks (w w' : World) : Prop :=
  order_cache (mem w') = order_cache (mem w) ∧
  orders_by_instrument (mem w') = orders_by_instrument (mem w) ∧
  broker w' = broker w.

(** The entry points of the manager that read or write the state above,
    and a run of them in some order.  Left out are [start] and [stop],
    [on_ticks], which only fills [tick_queue], the clean-up loop, which
    only expires entries of [tick_cache] and [instrument_cache], and the
    logging and monitoring methods. *)
Inductive Operation : Type :=
| OpTick (env : Env) (tick : Tick)
| OpAddOrder (env : Env) (order_details : Order)
| OpSubscribe (env : Env) (insts : list Z)
| OpHandleIncoming
| OpDbWorker
| OpModify (env : Env) (id : Z) (new_details : Details)
| OpCancel (env : Env) (id : Z)
| OpOrderUpdate (env : Env) (id : Z) (status : string)
                (exchange_order_id : option string)
| OpConnect (env : Env)
| OpClose.

Definition perform (w : World) (op : Operation) : World :=
  match op with
  | OpTick env tick => _process_tick_data env tick w
  | OpAddOrder env order_details => (add_order env order_details w).2
  | OpSubscribe env insts => (subscribe_instruments env insts w).2
  | OpHandleIncoming => (_handle_incoming_orders w).2
  | OpDbWorker => (_db_worker w).2
  | OpModify env id new_details => (modify_order env id new_details w).2
  | OpCancel env id => (cancel_order env id w).2
  | OpOrderUpdate env id status ex => on_order_update env id status ex w
  | OpConnect env => (on_connect env w).2
  | OpClose => on_close w
  end.

Definition perform_all (ops : list Operation) (w : World) : World :=
  foldl perform w ops.

(** The operations that evaluate ticks, and those that can subscribe. *)
Definition is_tick (op : Operation) : bool :=
  match op with OpTick _ _ => true | _ => false end.

Definition can_subscribe (op : Operation) : bool :=
  match op with
  | OpAddOrder _ _ | OpSubscribe _ _ | OpConnect _ => true
  | _ => false
  end.

(** A direct request to subscribe names no instrument twice. *)
Definition requests_once (op : Operation) : Prop :=
  match op with OpSubscribe _ insts => NoDup insts | _ => True end.

(** Every order cached in [w] and every index entry of [w] is still there
    in [w']. *)
Definition keeps_orders (w w' : World) : Prop :=
  (∀ id, is_Some (order_cache (mem w) !! id) →
         is_Some (order_cache (mem w') !! id)) ∧
  (∀ t id, id ∈ default [] (orders_by_instrument (mem w) !! t) →
           id ∈ default [] (orders_by_instrument (mem w') !! t)).

(** A call on the trace made with the data of [o] for order [id]. *)
Definition placed_as (id : Z) (o : Order) (p : Placement) : Prop :=
  p = placement_of id o (p_accepted p).

(** An index entry the loop of [_process_tick_data] passes over. *)
Definition skipped (w : World) (id : Z) : Prop :=
  match order_cache (mem w) !! id with
  | Some order => triggered order = true
  | None => True
  end.

(** ** Sample data

    The orders and ticks of the scenarios of the specification, and a
    manager in which one order is cached, stored and indexed. *)

Definition sample_order (id : Z) (type op : string) (limit trigger : option Q)
    (exec_limit done : Z) : Order :=
  mkOrder id "X" (Some 5) 10 type limit trigger "REGULAR" "CNC" "DAY" op
          exec_limit done false.

Definition tick_at (price : Q) : Tick := mkTick 5 price 0.

Definition empty_manager : OrderManager :=
  mkManager ∅ ∅ ∅ ∅ ∅ ∅ ∅ [] [] [] true.

(** Everything outside works. *)
Definition fair_env : Env :=
  mkEnv (λ _, Some 5) (λ _, true) (λ _, true) true 0.

(** The broker refuses every order. *)
Definition refusing_env : Env :=
  mkEnv (λ _, Some 5) (λ _, false) (λ _, true) true 0.

(** The live lookup fails. *)
Definition unresolving_env : Env :=
  mkEnv (λ _, None) (λ _, true) (λ _, true) true 0.

(** The world the manager is meant to reach for an order [o] of
    instrument 5: [o] is cached, it has its PENDING row, and it is indexed
    under its instrument. *)
Definition world_with (o : Order) : World :=
  mkWorld
    (mkManager {[ "X" := 5 ]} ∅ ∅ {[ order_id o := o ]} {[ order_id o := o ]}
               ∅ {[ 5 := [order_id o] ]} [] [] [5] true)
    (mkDatabase {[ order_id o := mkRow o "PENDING" None None ]} [] ∅)
    [] [] [].

(** A manager that knows nothing yet, over a store whose [instruments]
    table maps X to 7. *)
Definition blank_world : World :=
  mkWorld empty_manager (mkDatabase ∅ [] {[ "X" := 7 ]}) [] [] [].

(** * Properties *)

(** The guard of [_check_and_execute_order] when the counter is known to be
    below the limit. *)
Ltac below_limit order :=
  destruct (Z.leb_spec (execution_limit order) (executions_done order));
  [lia|].

(** ** Trigger evaluation *)

Lemma py_le_true (a : Q) (b : option Q) :
  py_le a b = Ok true ↔ ∃ l, b = Some l ∧ (a <= l)%Q.
Proof.
  destruct b as [l|]; simpl; split.
  - intros H. exists l. split; [done|]. apply Qle_bool_iff. congruence.
  - intros (l' & [= <-] & H). f_equal. by apply Qle_bool_iff.
  - discriminate.
  - intros (l' & [=] & _).
Qed.

Lemma py_ge_true (a : Q) (b : option Q) :
  py_ge a b = Ok true ↔ ∃ l, b = Some l ∧ (l <= a)%Q.
Proof.
  destruct b as [l|]; simpl; split.
  - intros H. exists l. split; [done|]. apply Qle_bool_iff. congruence.
  - intros (l' & [= <-] & H). f_equal. by apply Qle_bool_iff.
  - discriminate.
  - intros (l' & [=] & _).
Qed.

(** The stop-loss branch tests [operation == 'BUY'] and treats everything
    else as a sale. *)
Lemma should_execute_stop_loss (order : Order) (price : Q) :
  order_type order = "SL" ∨ order_type order = "SL-M" →
  should_execute order price =
    if (operation order =? "BUY")%string
    then py_ge price (trigger_price order)
    else py_le price (trigger_price order).
Proof.
  unfold should_execute. by intros [-> | ->].
Qed.

(** C1.  Eligibility is decided by [order_type]: a MARKET order is always
    eligible; a LIMIT order is eligible iff it buys and the tick price is
    at most the limit price, or sells and the tick price is at least the
    limit price; an SL or SL-M order is eligible iff it buys and the tick
    price is at least the trigger price, or sells and the tick price is at
    most the trigger price.  The operation of an order is BUY or SELL. *)
Theorem C1_eligibility_by_order_type (order : Order) (price : Q) :
  operation order = "BUY" ∨ operation order = "SELL" →
  (order_type order = "MARKET" → should_execute order price = Ok true) ∧
  (order_type order = "LIMIT" →
     should_execute order price = Ok true ↔
     ∃ l, limit_price order = Some l ∧
          ((operation order = "BUY" ∧ (price <= l)%Q) ∨
           (operation order = "SELL" ∧ (l <= price)%Q))) ∧
  (order_type order = "SL" ∨ order_type order = "SL-M" →
     should_execute order price = Ok true ↔
     ∃ t, trigger_price order = Some t ∧
          ((operation order = "BUY" ∧ (t <= price)%Q) ∨
           (operation order = "SELL" ∧ (price <= t)%Q))).
Proof.
  intros Hop. split; [|split].
  - intros Hty. unfold should_execute. by rewrite Hty.
  - intros Hty. unfold should_execute. rewrite Hty. simpl.
    destruct Hop as [Hop | Hop]; rewrite Hop; simpl.
    + destruct (py_le price (limit_price order)) as [[|]|e] eqn:Hle; simpl.
      * apply py_le_true in Hle as (l & Hl & Hle).
        split; [|done]. intros _. exists l. split; [done|]. left. done.
      * split; [discriminate|].
        intros (l & Hl & [[_ H] | [[=] _]]).
        assert (py_le price (limit_price order) = Ok true) as Ht
          by (apply py_le_true; eauto).
        congruence.
      * split; [discriminate|].
        intros (l & Hl & _). rewrite Hl in Hle. discriminate.
    + rewrite py_ge_true. split.
      * intros (l & Hl & Hle). exists l. split; [done|]. right. done.
      * intros (l & Hl & [[[=] _] | [_ H]]). eauto.
  - intros Hty. rewrite (should_execute_stop_loss _ _ Hty).
    destruct Hop as [Hop | Hop]; rewrite Hop; simpl.
    + rewrite py_ge_true. split.
      * intros (t & Ht & Hle). exists t. split; [done|]. left. done.
      * intros (t & Ht & [[_ H] | [[=] _]]). eauto.
    + rewrite py_le_true. split.
      * intros (t & Ht & Hle). exists t. split; [done|]. right. done.
      * intros (t & Ht & [[[=] _] | [_ H]]). eauto.
Qed.

(** The scenarios of the specification. *)
Example limit_buy_above_limit :
  should_execute (sample_order 1 "LIMIT" "BUY" (Some 100%Q) None 1 0) 105 = Ok false.
Proof. reflexivity. Qed.

Example limit_buy_below_limit :
  should_execute (sample_order 1 "LIMIT" "BUY" (Some 100%Q) None 1 0) 99 = Ok true.
Proof. reflexivity. Qed.

Example stop_loss_sell_above_trigger :
  should_execute (sample_order 1 "SL" "SELL" None (Some 50%Q) 1 0) 55 = Ok false.
Proof. reflexivity. Qed.

Example stop_loss_sell_below_trigger :
  should_execute (sample_order 1 "SL" "SELL" None (Some 50%Q) 1 0) 49 = Ok true.
Proof. reflexivity. Qed.

Lemma C1_eligibility_witness :
  should_execute (sample_order 1 "SL" "SELL" None (Some 50%Q) 1 0) 49 = Ok true ↔
  ∃ t, Some 50%Q = Some t ∧
       (("SELL" = "BUY" ∧ (t <= 49)%Q) ∨ ("SELL" = "SELL" ∧ (49 <= t)%Q)).
Proof.
  apply (C1_eligibility_by_order_type
           (sample_order 1 "SL" "SELL" None (Some 50%Q) 1 0) 49).
  - right. reflexivity.
  - left. reflexivity.
Defined.

(** ** The execution counter *)

Lemma foldl_invariant {A B} (P : A → Prop) (f : A → B → A) (l : list B) (a : A) :
  P a → (∀ a b, P a → P (f a b)) → P (foldl f a l).
Proof.
  intros Ha Hstep. revert a Ha.
  induction l as [|b l IH]; intros a Ha; simpl; [done|].
  apply IH, Hstep, Ha.
Qed.

Lemma with_executions_done_same (o : Order) :
  with_executions_done (executions_done o) o = o.
Proof. by destruct o. Qed.

Lemma complete_order_cache env id status w :
  order_cache (mem (_complete_order env id status w)) = order_cache (mem w).
Proof. unfold _complete_order. by destruct (db_ok env _). Qed.

(** What one evaluation does to [order_cache]: nothing, or the increment of
    the evaluated entry, and the latter only below the limit. *)
Lemma check_and_execute_cache env id order tick w :
  order_cache (mem (_check_and_execute_order env id order tick w))
    = order_cache (mem w) ∨
  (executions_done order < execution_limit order ∧
   order_cache (mem (_check_and_execute_order env id order tick w))
     = <[id := incr_executions order]> (order_cache (mem w))).
Proof.
  unfold _check_and_execute_order.
  destruct (Z.leb_spec (execution_limit order) (executions_done order)) as [Hge|Hlt].
  { left. by rewrite complete_order_cache. }
  destruct (should_execute order (last_price tick)) as [[|]|e]; [|by left..].
  destruct (place_order_ok env id); [|by left].
  right. split; [done|].
  destruct (db_ok env (AtExecution id)); [|done].
  destruct (execution_limit (incr_executions order)
              <=? executions_done (incr_executions order))%Z;
    [by rewrite complete_order_cache | done].
Qed.

Lemma counted_up_refl o : counted_up o o.
Proof.
  unfold counted_up. rewrite with_executions_done_same. split; [done|lia].
Qed.

Lemma counted_up_limit o o' :
  counted_up o o' → execution_limit o' = execution_limit o.
Proof. intros (-> & _). reflexivity. Qed.

Lemma counted_up_incr o o' :
  counted_up o o' → executions_done o' < execution_limit o' →
  counted_up o (incr_executions o').
Proof.
  intros Hc Hlt. pose proof (counted_up_limit _ _ Hc) as Hl.
  destruct Hc as (Ho' & Hle & Hmax).
  unfold counted_up, incr_executions. split; [|simpl; lia].
  rewrite Ho'. reflexivity.
Qed.

Lemma evaluate_indexed_counted_up env tick id o w k :
  cache_counted_up id o w →
  cache_counted_up id o (evaluate_indexed env tick w k).
Proof.
  intros (o' & Hcache & Hc). unfold evaluate_indexed.
  destruct (order_cache (mem w) !! k) as [order|] eqn:Hk; [|by exists o'].
  destruct (triggered order); [by exists o'|].
  unfold cache_counted_up.
  destruct (check_and_execute_cache env k order tick w) as [-> | [Hlt ->]];
    [by exists o'|].
  destruct (decide (k = id)) as [->|Hne].
  - rewrite Hcache in Hk. injection Hk as <-.
    exists (incr_executions o'). rewrite lookup_insert_eq.
    split; [done|]. by apply counted_up_incr.
  - exists o'. by rewrite lookup_insert_ne.
Qed.

Lemma process_tick_counted_up env tick id o w :
  cache_counted_up id o w →
  cache_counted_up id o (_process_tick_data env tick w).
Proof.
  intros H. unfold _process_tick_data.
  apply foldl_invariant; [exact H|].
  intros a b. apply evaluate_indexed_counted_up.
Qed.

Lemma run_ticks_counted_up ticks id o w :
  cache_counted_up id o w → cache_counted_up id o (run_ticks ticks w).
Proof.
  intros H. unfold run_ticks. apply foldl_invariant; [exact H|].
  intros a [env tick]. apply process_tick_counted_up.
Qed.

(** C2.  [executions_done] never goes down and never passes
    [execution_limit]: one evaluation leaves the counter of the evaluated
    order alone or adds one to it, and adds one only if the counter was
    below the limit; along any sequence of ticks the counter of an order
    that starts within its limit is non-decreasing and stays within it. *)
Theorem C2_executions_done_monotone_bounded :
  (∀ env id order tick w,
     order_cache (mem w) !! id = Some order →
     order_cache (mem (_check_and_execute_order env id order tick w)) !! id
       = Some order ∨
     (executions_done order < execution_limit order ∧
      order_cache (mem (_check_and_execute_order env id order tick w)) !! id
        = Some (incr_executions order))) ∧
  (∀ ticks1 ticks2 id order w,
     order_cache (mem w) !! id = Some order →
     executions_done order ≤ execution_limit order →
     ∃ o1 o2,
       order_cache (mem (run_ticks ticks1 w)) !! id = Some o1 ∧
       order_cache (mem (run_ticks ticks2 (run_ticks ticks1 w))) !! id = Some o2 ∧
       execution_limit o1 = execution_limit order ∧
       execution_limit o2 = execution_limit order ∧
       executions_done order ≤ executions_done o1 ∧
       executions_done o1 ≤ executions_done o2 ∧
       executions_done o2 ≤ execution_limit order).
Proof.
  split.
  - intros env id order tick w Hcache.
    destruct (check_and_execute_cache env id order tick w) as [-> | [Hlt ->]].
    + by left.
    + right. by rewrite lookup_insert_eq.
  - intros ticks1 ticks2 id order w Hcache Hle.
    assert (cache_counted_up id order w) as H0
      by (exists order; split; [done | apply counted_up_refl]).
    destruct (run_ticks_counted_up ticks1 id order w H0) as (o1 & Hc1 & Hup1).
    assert (cache_counted_up id o1 (run_ticks ticks1 w)) as H1
      by (exists o1; split; [done | apply counted_up_refl]).
    destruct (run_ticks_counted_up ticks2 id o1 _ H1) as (o2 & Hc2 & Hup2).
    exists o1, o2.
    pose proof (counted_up_limit _ _ Hup1) as Hl1.
    pose proof (counted_up_limit _ _ Hup2) as Hl2.
    destruct Hup1 as (_ & Hle1 & Hmax1). destruct Hup2 as (_ & Hle2 & Hmax2).
    repeat split; try done; lia.
Qed.

Example counter_along_three_ticks :
  let o := sample_order 1 "MARKET" "BUY" None None 2 0 in
  let w1 := run_ticks [(fair_env, tick_at 100)] (world_with o) in
  let w2 := run_ticks [(fair_env, tick_at 101)] w1 in
  let w3 := run_ticks [(fair_env, tick_at 102)] w2 in
  executions_done <$> order_cache (mem w1) !! 1 = Some 1 ∧
  executions_done <$> order_cache (mem w2) !! 1 = Some 2 ∧
  executions_done <$> order_cache (mem w3) !! 1 = Some 2 ∧
  length (broker w3) = 2%nat.
Proof. vm_compute. done. Qed.

Lemma C2_executions_done_witness :
  ∃ o1 o2,
    order_cache (mem (run_ticks [(fair_env, tick_at 100)]
      (world_with (sample_order 1 "MARKET" "BUY" None None 2 0)))) !! 1 = Some o1 ∧
    order_cache (mem (run_ticks [(fair_env, tick_at 101); (fair_env, tick_at 102)]
      (run_ticks [(fair_env, tick_at 100)]
        (world_with (sample_order 1 "MARKET" "BUY" None None 2 0))))) !! 1 = Some o2 ∧
    execution_limit o1 = 2 ∧ execution_limit o2 = 2 ∧
    0 ≤ executions_done o1 ∧ executions_done o1 ≤ executions_done o2 ∧
    executions_done o2 ≤ 2.
Proof.
  apply (proj2 C2_executions_done_monotone_bounded
           [(fair_env, tick_at 100)]
           [(fair_env, tick_at 101); (fair_env, tick_at 102)]
           1 (sample_order 1 "MARKET" "BUY" None None 2 0)
           (world_with (sample_order 1 "MARKET" "BUY" None None 2 0))).
  - reflexivity.
  - simpl. lia.
Defined.

(** ** Completion *)

Lemma complete_order_broker env id status w :
  broker (_complete_order env id status w) = broker w.
Proof. unfold _complete_order. by destruct (db_ok env _). Qed.

(** One evaluation calls the broker at most once, and only for the order
    evaluated, below its limit and eligible. *)
Lemma check_and_execute_broker env id order tick w :
  broker (_check_and_execute_order env id order tick w) = broker w ∨
  (executions_done order < execution_limit order ∧
   should_execute order (last_price tick) = Ok true ∧
   broker (_check_and_execute_order env id order tick w)
     = (broker w ++ [placement_of id order (place_order_ok env id)])%list).
Proof.
  unfold _check_and_execute_order.
  destruct (Z.leb_spec (execution_limit order) (executions_done order)) as [Hge|Hlt].
  { left. by rewrite complete_order_broker. }
  destruct (should_execute order (last_price tick)) as [[|]|e]; [|by left..].
  right. split; [done|]. split; [done|].
  repeat (case_match; simpl; try done); by rewrite complete_order_broker.
Qed.

(** The world after an execution that the broker accepted and the store
    recorded. *)
Lemma check_and_execute_executed env id order tick w :
  executions_done order < execution_limit order →
  should_execute order (last_price tick) = Ok true →
  place_order_ok env id = true →
  db_ok env (AtExecution id) = true →
  _check_and_execute_order env id order tick w =
    let order' := incr_executions order in
    let w1 :=
      on_store (sql_record_execution id (last_price tick))
        (on_mem (set_order_cache (<[id := order']>))
           (calls_broker (placement_of id order true) (logs INFO w))) in
    if (execution_limit order' <=? executions_done order')
    then _complete_order env id "COMPLETED" w1
    else on_mem (set_orders (<[id := order']>)) w1.
Proof.
  intros Hlt Hex Hpl Hdb. unfold _check_and_execute_order.
  below_limit order.
  by rewrite Hex, Hpl, Hdb.
Qed.

(** C3.  An order that reaches its limit is not evicted.  The order of the
    round trip of the specification, one MARKET order with
    [execution_limit = 1], meets one tick of its instrument: it is placed
    once, its counter reaches the limit and its row is COMPLETED, and it
    is still held by [order_cache] and still listed by the instrument
    index.  [_complete_order] deletes the order from [orders] and from
    nothing else. *)
Lemma C3_completed_order_not_evicted :
  let o := sample_order 1 "MARKET" "BUY" None None 1 0 in
  let w' := _process_tick_data fair_env (tick_at 100) (world_with o) in
  executions_done <$> order_cache (mem w') !! 1 = Some (execution_limit o) ∧
  row_status <$> pending_orders (store w') !! 1 = Some "COMPLETED" ∧
  length (broker w') = 1%nat ∧
  order_cache (mem w') !! 1 ≠ None ∧
  1 ∈ default [] (orders_by_instrument (mem w') !! 5).
Proof.
  vm_compute. repeat split; try done. apply list_elem_of_here.
Qed.

(** ** Execution below the limit *)

(** C4, as the code has it.  After an accepted placement that leaves the
    counter below the limit (store reachable), the worker has incremented
    [executions_done] in the [order_cache] entry, has written the execution
    row and the counter update to the durable store itself, in a
    connection of its own, has put nothing on [db_queue], and has stored
    the updated order in the shared [orders] dictionary. *)
Theorem C4_execution_below_limit env id order tick w :
  executions_done order + 1 < execution_limit order →
  should_execute order (last_price tick) = Ok true →
  place_order_ok env id = true →
  db_ok env (AtExecution id) = true →
  let w' := _check_and_execute_order env id order tick w in
  broker w' = (broker w ++ [placement_of id order true])%list ∧
  order_cache (mem w') = <[id := incr_executions order]> (order_cache (mem w)) ∧
  store w' = sql_record_execution id (last_price tick) (store w) ∧
  db_queue (mem w') = db_queue (mem w) ∧
  orders (mem w') = <[id := incr_executions order]> (orders (mem w)).
Proof.
  intros Hlt Hex Hpl Hdb w'. subst w'.
  rewrite (check_and_execute_executed env id order tick w) by (done || lia).
  simpl.
  destruct (Z.leb_spec (execution_limit order) (executions_done order + 1)); [lia|].
  done.
Qed.

(** A MARKET order with two executions to go meets one tick: the execution
    is in the durable store and [db_queue] is as empty as before. *)
Lemma C4_store_written_by_tick_worker :
  let o := sample_order 1 "MARKET" "BUY" None None 2 0 in
  let w := world_with o in
  let w' := _process_tick_data fair_env (tick_at 100) w in
  db_queue (mem w) = [] ∧
  db_queue (mem w') = [] ∧
  order_executions (store w) = [] ∧
  order_executions (store w') = [(1, 100%Q)] ∧
  (executions_done ∘ row_order) <$> pending_orders (store w') !! 1 = Some 1.
Proof. vm_compute. done. Qed.

Lemma C4_execution_witness :
  let o := sample_order 1 "MARKET" "BUY" None None 2 0 in
  let w := world_with o in
  let w' := _check_and_execute_order fair_env 1 o (tick_at 100) w in
  broker w' = (broker w ++ [placement_of 1 o true])%list ∧
  order_cache (mem w') = <[1 := incr_executions o]> (order_cache (mem w)) ∧
  store w' = sql_record_execution 1 100%Q (store w) ∧
  db_queue (mem w') = db_queue (mem w) ∧
  orders (mem w') = <[1 := incr_executions o]> (orders (mem w)).
Proof.
  apply (C4_execution_below_limit fair_env 1
           (sample_order 1 "MARKET" "BUY" None None 2 0) (tick_at 100)
           (world_with (sample_order 1 "MARKET" "BUY" None None 2 0)));
    try reflexivity; simpl; lia.
Defined.

(** ** Token resolution and admission *)

(** C5, as the code has it.  The token of a symbol is looked up in the memo
    of [_get_instrument_token], then in the instrument-token cache, then
    with a live lookup; the durable store takes no part in the resolution.
    A successful live lookup populates the cache; a failed one raises and
    leaves the manager as it was.  [add_order] stores the order with the
    token so resolved. *)
Theorem C5_token_resolution env sym w :
  (∀ d, (_get_instrument_token env sym (on_store (λ _, d) w)).1
        = (_get_instrument_token env sym w).1) ∧
  (∀ t, token_memo (mem w) !! sym = Some t →
        _get_instrument_token env sym w = (Ok t, w)) ∧
  (∀ t, token_memo (mem w) !! sym = None →
        instrument_cache (mem w) !! sym = Some t →
        (_get_instrument_token env sym w).1 = Ok t ∧
        instrument_cache (mem (_get_instrument_token env sym w).2)
          = instrument_cache (mem w)) ∧
  (∀ t, token_memo (mem w) !! sym = None →
        instrument_cache (mem w) !! sym = None →
        kite_ltp env sym = Some t →
        (_get_instrument_token env sym w).1 = Ok t ∧
        instrument_cache (mem (_get_instrument_token env sym w).2)
          = <[sym := t]> (instrument_cache (mem w))) ∧
  (token_memo (mem w) !! sym = None →
   instrument_cache (mem w) !! sym = None →
   kite_ltp env sym = None →
   (_get_instrument_token env sym w).1 = Raise KiteException ∧
   mem (_get_instrument_token env sym w).2 = mem w) ∧
  (∀ order_details t w1,
     sym = trading_symbol order_details →
     _get_instrument_token env sym w = (Ok t, w1) →
     order_cache (mem (add_order env order_details w).2) !! order_id order_details
       = Some (with_instrument_token t order_details)).
Proof.
  split; [|split; [|split; [|split; [|split]]]].
  - intros d. unfold _get_instrument_token. simpl. by repeat case_match.
  - intros t Hm. unfold _get_instrument_token. by rewrite Hm.
  - intros t Hm Hc. unfold _get_instrument_token. by rewrite Hm, Hc.
  - intros t Hm Hc Hl. unfold _get_instrument_token. by rewrite Hm, Hc, Hl.
  - intros Hm Hc Hl. unfold _get_instrument_token. by rewrite Hm, Hc, Hl.
  - intros order_details t w1 -> Hres. unfold add_order. rewrite Hres.
    assert (∀ w2 : World,
      order_cache (mem w2) !! order_id order_details
        = Some (with_instrument_token t order_details) →
      order_cache (mem (subscribe_instruments env [t] w2).2) !! order_id order_details
        = Some (with_instrument_token t order_details)) as Hsub.
    { intros w2 H2. unfold subscribe_instruments. by repeat case_match. }
    simpl. case_bool_decide; simpl.
    + apply lookup_insert_eq.
    + match goal with
      | |- context [subscribe_instruments env [t] ?w2] =>
          specialize (Hsub w2); destruct (subscribe_instruments env [t] w2) as [[u|e] w3]
      end; simpl in *; apply Hsub, lookup_insert_eq.
Qed.

(** The live lookup is down and the cache does not know X; the store does.
    The code raises, and so does [add_order]; the resolution order of the
    specification answers 7 from the store. *)
Lemma C5_store_not_consulted :
  instrument_cache (mem blank_world) !! "X" = None ∧
  instruments (store blank_world) !! "X" = Some 7 ∧
  (resolve_as_specified unresolving_env "X" blank_world).1 = Ok 7 ∧
  (_get_instrument_token unresolving_env "X" blank_world).1 = Raise KiteException ∧
  (add_order unresolving_env (sample_order 1 "MARKET" "BUY" None None 1 0)
             blank_world).1 = Raise KiteException.
Proof. vm_compute. done. Qed.

Lemma C5_token_resolution_witness :
  (_get_instrument_token fair_env "X" blank_world).1 = Ok 5 ∧
  instrument_cache (mem (_get_instrument_token fair_env "X" blank_world).2)
    = <["X" := 5]> (instrument_cache (mem blank_world)).
Proof.
  apply (proj1 (proj2 (proj2 (proj2
           (C5_token_resolution fair_env "X" blank_world)))) 5);
    reflexivity.
Defined.

(** C6.  When the token cannot be resolved, [add_order] raises the error of
    the resolution and leaves no trace of the order: the manager (order
    cache, [db_queue], [order_queue], subscriptions and all the rest), the
    durable store and the calls made to the feed and to the broker are what
    they were. *)
Theorem C6_add_order_unresolved env order_details w e w1 :
  _get_instrument_token env (trading_symbol order_details) w = (Raise e, w1) →
  ∃ w', add_order env order_details w = (Raise e, w') ∧
        mem w' = mem w ∧
        order_cache (mem w') = order_cache (mem w) ∧
        db_queue (mem w') = db_queue (mem w) ∧
        order_queue (mem w') = order_queue (mem w) ∧
        subscribed_instruments (mem w') = subscribed_instruments (mem w) ∧
        store w' = store w ∧
        feed w' = feed w ∧
        broker w' = broker w.
Proof.
  intros Hres. unfold add_order. rewrite Hres.
  eexists. split; [reflexivity|].
  revert Hres. unfold _get_instrument_token.
  repeat case_match; try discriminate.
  intros [= <- <-]. by repeat split.
Qed.

Lemma C6_add_order_witness :
  ∃ w', add_order unresolving_env (sample_order 1 "MARKET" "BUY" None None 1 0)
                  blank_world = (Raise KiteException, w') ∧
        mem w' = mem blank_world ∧
        order_cache (mem w') = order_cache (mem blank_world) ∧
        db_queue (mem w') = db_queue (mem blank_world) ∧
        order_queue (mem w') = order_queue (mem blank_world) ∧
        subscribed_instruments (mem w') = subscribed_instruments (mem blank_world) ∧
        store w' = store blank_world ∧
        feed w' = feed blank_world ∧
        broker w' = broker blank_world.
Proof.
  apply (C6_add_order_unresolved unresolving_env
           (sample_order 1 "MARKET" "BUY" None None 1 0) blank_world
           KiteException (logs ERROR blank_world)).
  reflexivity.
Defined.

(** ** A placement the broker refuses *)

(** An accepted placement is recorded and counted, whatever the store
    does afterwards. *)
Lemma check_and_execute_placed env id order tick w :
  executions_done order < execution_limit order →
  should_execute order (last_price tick) = Ok true →
  place_order_ok env id = true →
  broker (_check_and_execute_order env id order tick w)
    = (broker w ++ [placement_of id order true])%list ∧
  order_cache (mem (_check_and_execute_order env id order tick w))
    = <[id := incr_executions order]> (order_cache (mem w)).
Proof.
  intros Hlt Hex Hpl. unfold _check_and_execute_order.
  below_limit order.
  rewrite Hex, Hpl.
  destruct (db_ok env (AtExecution id)); [|done].
  destruct (execution_limit (incr_executions order)
              <=? executions_done (incr_executions order)); [|done].
  by rewrite complete_order_broker, complete_order_cache.
Qed.

(** C9.  An evaluation in which the call of [kite.place_order] fails leaves
    the manager and the durable store as they were: the counter is not
    incremented, the order is not completed, no execution row is written.
    The order is evaluated again by the next tick, and executes if that
    tick qualifies and the broker accepts. *)
Theorem C9_failed_placement_leaves_order env id order tick w :
  broker (_check_and_execute_order env id order tick w)
    = (broker w ++ [placement_of id order false])%list →
  let w' := _check_and_execute_order env id order tick w in
  mem w' = mem w ∧
  store w' = store w ∧
  placements_for id (filter (λ p, p_accepted p = true) (broker w'))
    = placements_for id (filter (λ p, p_accepted p = true) (broker w)) ∧
  (∀ env' tick',
     should_execute order (last_price tick') = Ok true →
     place_order_ok env' id = true →
     broker (_check_and_execute_order env' id order tick' w')
       = (broker w' ++ [placement_of id order true])%list ∧
     order_cache (mem (_check_and_execute_order env' id order tick' w'))
       = <[id := incr_executions order]> (order_cache (mem w))).
Proof.
  intros Hcall w'.
  destruct (check_and_execute_broker env id order tick w)
    as [Hb | (Hlt & Hex & Hb)].
  { rewrite Hb in Hcall. apply (f_equal length) in Hcall.
    rewrite length_app in Hcall. simpl in Hcall. lia. }
  rewrite Hb in Hcall. apply app_inv_head in Hcall.
  injection Hcall as Hpl.
  assert (w' = logs ERROR
            (calls_broker (placement_of id order false) (logs INFO w))) as Hw'.
  { subst w'. unfold _check_and_execute_order.
    below_limit order.
    by rewrite Hex, Hpl. }
  split; [by rewrite Hw'|]. split; [by rewrite Hw'|]. split.
  { rewrite Hw'. simpl. rewrite filter_app, filter_cons_False by done.
    by rewrite filter_nil, app_nil_r. }
  intros env' tick' Hex' Hpl'.
  destruct (check_and_execute_placed env' id order tick' w' Hlt Hex' Hpl')
    as [-> ->].
  by rewrite Hw'.
Qed.

Lemma C9_failed_placement_witness :
  let o := sample_order 1 "MARKET" "BUY" None None 1 0 in
  let w := world_with o in
  let w' := _check_and_execute_order refusing_env 1 o (tick_at 100) w in
  mem w' = mem w ∧
  store w' = store w ∧
  placements_for 1 (filter (λ p, p_accepted p = true) (broker w'))
    = placements_for 1 (filter (λ p, p_accepted p = true) (broker w)) ∧
  (∀ env' tick',
     should_execute o (last_price tick') = Ok true →
     place_order_ok env' 1 = true →
     broker (_check_and_execute_order env' 1 o tick' w')
       = (broker w' ++ [placement_of 1 o true])%list ∧
     order_cache (mem (_check_and_execute_order env' 1 o tick' w'))
       = <[1 := incr_executions o]> (order_cache (mem w))).
Proof.
  apply (C9_failed_placement_leaves_order refusing_env 1
           (sample_order 1 "MARKET" "BUY" None None 1 0) (tick_at 100)
           (world_with (sample_order 1 "MARKET" "BUY" None None 1 0))).
  reflexivity.
Defined.

(** ** Cancellation *)

(** With a PENDING row, [cancel_order] sets the status and deletes the
    order from the shared [orders] dictionary; [order_cache], which the tick
    path reads, keeps it. *)
Lemma cancel_order_pending env id w r :
  db_ok env (AtCancel id) = true →
  pending_row id (store w) = Some r →
  ∃ w', cancel_order env id w = (Ok (), w') ∧
        row_status <$> pending_orders (store w') !! id = Some "CANCELLED" ∧
        orders (mem w') = delete id (orders (mem w)) ∧
        order_cache (mem w') = order_cache (mem w).
Proof.
  intros Hdb Hrow. unfold cancel_order. simpl. rewrite Hdb, Hrow.
  eexists. split; [reflexivity|]. simpl. split; [|done].
  rewrite lookup_alter_eq.
  unfold pending_row in Hrow.
  destruct (pending_orders (store w) !! id); [done | discriminate].
Qed.

(** Without one, it warns and changes nothing. *)
Lemma cancel_order_not_pending env id w :
  db_ok env (AtCancel id) = true →
  pending_row id (store w) = None →
  ∃ w', cancel_order env id w = (Ok (), w') ∧
        mem w' = mem w ∧ store w' = store w ∧
        last (log w') = Some WARNING.
Proof.
  intros Hdb Hrow. unfold cancel_order. simpl. rewrite Hdb, Hrow.
  eexists. split; [reflexivity|]. simpl. repeat split.
  by rewrite last_snoc.
Qed.

(** C7 on an admitted MARKET order with a PENDING row: the cancellation
    succeeds and the row is CANCELLED, [orders] no longer has the order,
    [order_cache] still has it, and the next tick of the instrument places
    it with the broker and overwrites the status. *)
Lemma C7_cancelled_order_still_executes :
  let o := sample_order 1 "MARKET" "BUY" None None 1 0 in
  let w := world_with o in
  let r := cancel_order fair_env 1 w in
  let w' := _process_tick_data fair_env (tick_at 100) r.2 in
  row_status <$> pending_orders (store w) !! 1 = Some "PENDING" ∧
  r.1 = Ok () ∧
  row_status <$> pending_orders (store r.2) !! 1 = Some "CANCELLED" ∧
  orders (mem r.2) !! 1 = None ∧
  order_cache (mem r.2) !! 1 = Some o ∧
  broker r.2 = [] ∧
  broker w' = [placement_of 1 o true] ∧
  row_status <$> pending_orders (store w') !! 1 = Some "COMPLETED".
Proof. vm_compute. done. Qed.

(** ** Modification *)

(** With a PENDING row and the order in [orders], [modify_order] updates
    the row; neither [orders] nor [order_cache] changes. *)
Lemma modify_order_pending env id new_details w r o :
  db_ok env (AtModify id) = true →
  pending_row id (store w) = Some r →
  orders (mem w) !! id = Some o →
  ∃ w', modify_order env id new_details w = (Ok (), w') ∧
        store w' = sql_modify id new_details (store w) ∧
        mem w' = mem w.
Proof.
  intros Hdb Hrow Ho. unfold modify_order. simpl. rewrite Hdb, Hrow, Ho.
  eexists. by split.
Qed.

(** Without a PENDING row it warns and changes nothing. *)
Lemma modify_order_not_pending env id new_details w :
  db_ok env (AtModify id) = true →
  pending_row id (store w) = None →
  ∃ w', modify_order env id new_details w = (Ok (), w') ∧
        mem w' = mem w ∧ store w' = store w ∧
        last (log w') = Some WARNING.
Proof.
  intros Hdb Hrow. unfold modify_order. simpl. rewrite Hdb, Hrow.
  eexists. split; [reflexivity|]. simpl. repeat split.
  by rewrite last_snoc.
Qed.

(** C8 on order 7, a LIMIT BUY at 100 with a PENDING row, modified to a
    limit of 50: the row takes the new limit; the order in [orders] and the
    order in [order_cache] keep the old one, and a tick at 99, which the
    modified order would not accept, is executed. *)
Lemma C8_modification_not_merged :
  let o := sample_order 7 "LIMIT" "BUY" (Some 100%Q) None 1 0 in
  let d := mkDetails "X" 10 "LIMIT" (Some 50%Q) None "REGULAR" "CNC" "DAY" "BUY" in
  let w := world_with o in
  let r := modify_order fair_env 7 d w in
  let w' := _process_tick_data fair_env (tick_at 99) r.2 in
  r.1 = Ok () ∧
  (limit_price ∘ row_order) <$> pending_orders (store r.2) !! 7 = Some (Some 50%Q) ∧
  orders (mem r.2) !! 7 = Some o ∧
  order_cache (mem r.2) !! 7 = Some o ∧
  should_execute (update_details d o) 99 = Ok false ∧
  broker w' = [placement_of 7 o true].
Proof. vm_compute. done. Qed.

(** ** Two workers *)

Lemma accepted_for_snoc id trace p :
  accepted_for id (trace ++ [p]) =
    if decide (p_order_id p = id ∧ p_accepted p = true)
    then (accepted_for id trace ++ [p])%list
    else accepted_for id trace.
Proof.
  unfold accepted_for, placements_for. rewrite filter_app.
  destruct (decide (p_order_id p = id)) as [Hid|Hid].
  - rewrite (filter_cons_True _ p) by done. rewrite filter_nil, filter_app.
    destruct (decide (p_accepted p = true)) as [Hacc|Hacc].
    + rewrite (filter_cons_True _ p) by done. rewrite filter_nil.
      by rewrite decide_True.
    + rewrite (filter_cons_False _ p) by done. rewrite filter_nil, app_nil_r.
      rewrite decide_False; [done | tauto].
  - rewrite (filter_cons_False _ p) by done. rewrite filter_nil, app_nil_r.
    rewrite decide_False; [done | tauto].
Qed.

(** One evaluation either leaves [order_cache] and the accepted placements
    as they were, or counts one execution and records one accepted
    placement for the order evaluated. *)
Lemma check_and_execute_outcome env id order tick w :
  (order_cache (mem (_check_and_execute_order env id order tick w))
     = order_cache (mem w) ∧
   ∀ k, accepted_for k (broker (_check_and_execute_order env id order tick w))
        = accepted_for k (broker w)) ∨
  (executions_done order < execution_limit order ∧
   order_cache (mem (_check_and_execute_order env id order tick w))
     = <[id := incr_executions order]> (order_cache (mem w)) ∧
   broker (_check_and_execute_order env id order tick w)
     = (broker w ++ [placement_of id order true])%list).
Proof.
  destruct (Z.leb_spec (execution_limit order) (executions_done order)) as [Hge|Hlt].
  { left. unfold _check_and_execute_order.
    destruct (Z.leb_spec (execution_limit order) (executions_done order)); [|lia].
    by rewrite complete_order_cache, complete_order_broker. }
  destruct (should_execute order (last_price tick)) as [[|]|e] eqn:Hex.
  - destruct (place_order_ok env id) eqn:Hpl.
    + right. split; [done|].
      destruct (check_and_execute_placed env id order tick w Hlt Hex Hpl).
      by split.
    + left. unfold _check_and_execute_order. below_limit order.
      rewrite Hex, Hpl. simpl. split; [done|]. intros k.
      rewrite accepted_for_snoc. rewrite decide_False; [done|].
      simpl. intros [_ [=]].
  - left. unfold _check_and_execute_order. below_limit order. by rewrite Hex.
  - left. unfold _check_and_execute_order. below_limit order. by rewrite Hex.
Qed.

Lemma evaluate_indexed_placements_counted env tick id o n w k :
  placements_counted id o n w →
  placements_counted id o n (evaluate_indexed env tick w k).
Proof.
  intros (o' & Hcache & Hup & Hn). unfold evaluate_indexed.
  destruct (order_cache (mem w) !! k) as [order|] eqn:Hk; [|by exists o'].
  destruct (triggered order); [by exists o'|].
  unfold placements_counted.
  destruct (check_and_execute_outcome env k order tick w)
    as [[-> Hacc] | (Hlt & -> & ->)].
  { exists o'. by rewrite Hacc. }
  rewrite accepted_for_snoc. simpl.
  destruct (decide (k = id)) as [->|Hne].
  - rewrite Hcache in Hk. injection Hk as <-.
    exists (incr_executions o'). rewrite lookup_insert_eq.
    split; [done|]. split; [by apply counted_up_incr|].
    rewrite decide_True by done. rewrite length_app. simpl. lia.
  - exists o'. rewrite lookup_insert_ne by done.
    split; [done|]. split; [done|].
    rewrite decide_False; [done | tauto].
Qed.

(** X5.  Within one process, ticks evaluated one after the other against
    the [order_cache] of that process place an order at most as many times
    as its limit leaves room for: the accepted placements that process
    makes for an order of its cache along any sequence of ticks number at
    most [execution_limit - executions_done].  Nothing is said about the
    calls of several processes taken together, each of which counts in a
    cache of its own. *)
Lemma sequential_placements_bounded ticks id order w :
  order_cache (mem w) !! id = Some order →
  executions_done order ≤ execution_limit order →
  Z.of_nat (length (accepted_for id (broker (run_ticks ticks w))))
    ≤ Z.of_nat (length (accepted_for id (broker w)))
      + (execution_limit order - executions_done order).
Proof.
  intros Hcache Hle.
  assert (placements_counted id order (length (accepted_for id (broker w)))
            (run_ticks ticks w)) as (o' & _ & Hup & Hn).
  { unfold run_ticks. apply foldl_invariant.
    - exists order. split; [done|]. split; [apply counted_up_refl | lia].
    - intros a [env tick] Ha. unfold _process_tick_data.
      apply foldl_invariant; [exact Ha|].
      intros a' k. apply evaluate_indexed_placements_counted. }
  destruct Hup as (_ & _ & Hmax). lia.
Qed.

(** Taken one after the other by a single worker, the two steps are
    [_check_and_execute_order]. *)
Lemma check_and_execute_two_steps env id order tick w :
  order_cache (mem w) !! id = Some order →
  _check_and_execute_order env id order tick w =
    let '(go, w1) := execute_begin env id order tick w in
    if go then execute_finish env id tick w1 else w1.
Proof.
  intros Hcache. unfold _check_and_execute_order, execute_begin.
  destruct (execution_limit order <=? executions_done order); [done|].
  destruct (should_execute order (last_price tick)) as [[|]|e]; [|done..].
  destruct (place_order_ok env id); [|done].
  unfold execute_finish. simpl. by rewrite Hcache.
Qed.

(** A worker that takes both steps without anyone in between does what one
    iteration of the loop of [_process_tick_data] does. *)
Lemma worker_alone env id tick c i :
  tasks c !! i = Some (Popped tick) →
  world (run_schedule env id [i; i] c) = evaluate_indexed env tick (world c) id.
Proof.
  intros Htask. pose proof (lookup_lt_Some _ _ _ Htask) as Hlen.
  unfold run_schedule, evaluate_indexed. simpl.
  unfold worker_step at 2. rewrite Htask.
  destruct (order_cache (mem (world c)) !! id) as [order|] eqn:Hcache.
  - destruct (triggered order).
    + unfold worker_step. simpl. by rewrite list_lookup_insert_eq.
    + rewrite (check_and_execute_two_steps _ _ _ _ _ Hcache).
      destruct (execute_begin env id order tick (world c)) as [[|] w1].
      * unfold worker_step. simpl. by rewrite list_lookup_insert_eq.
      * unfold worker_step. simpl. by rewrite list_lookup_insert_eq.
  - unfold worker_step. simpl. by rewrite list_lookup_insert_eq.
Qed.

(** One worker alone, and two workers one after the other, place the order
    of the round trip once. *)
Example one_worker_places_once :
  let o := sample_order 1 "MARKET" "BUY" None None 1 0 in
  let c := mkConfig (world_with o) [Popped (tick_at 100); Popped (tick_at 101)] in
  length (broker (world (run_schedule fair_env 1 [0; 0]%nat c))) = 1%nat ∧
  length (broker (world (run_schedule fair_env 1 [0; 0; 1; 1]%nat c))) = 1%nat.
Proof. vm_compute. done. Qed.

(** C10 on the order of the round trip ([execution_limit = 1]) and two
    ticks popped by two workers: when the second worker starts before the
    first has incremented the counter, both see [executions_done = 0] and
    both call [kite.place_order]. *)
Lemma C10_two_workers_place_twice :
  let o := sample_order 1 "MARKET" "BUY" None None 1 0 in
  let c := mkConfig (world_with o) [Popped (tick_at 100); Popped (tick_at 101)] in
  let c' := run_schedule fair_env 1 [0; 1; 0; 1]%nat c in
  execution_limit o = 1 ∧
  tasks c' = [Finished; Finished] ∧
  placements_for 1 (broker (world c'))
    = [placement_of 1 o true; placement_of 1 o true] ∧
  execution_limit o < Z.of_nat (length (accepted_for 1 (broker (world c')))) ∧
  executions_done <$> order_cache (mem (world c')) !! 1 = Some 2.
Proof. vm_compute. done. Qed.

(** * Further properties of the manager *)

(** ** What a tick leaves alone *)

Lemma complete_order_frame env id status w :
  same_outside_orders (mem w) (mem (_complete_order env id status w)) ∧
  feed (_complete_order env id status w) = feed w.
Proof.
  unfold _complete_order, same_outside_orders.
  by destruct (db_ok env _).
Qed.

Lemma check_and_execute_frame env id order tick w :
  same_outside_orders (mem w) (mem (_check_and_execute_order env id order tick w)) ∧
  feed (_check_and_execute_order env id order tick w) = feed w.
Proof.
  unfold _check_and_execute_order, _complete_order, same_outside_orders.
  by repeat case_match.
Qed.

Lemma same_outside_orders_refl m : same_outside_orders m m.
Proof. by unfold same_outside_orders. Qed.

Lemma same_outside_orders_trans m1 m2 m3 :
  same_outside_orders m1 m2 → same_outside_orders m2 m3 →
  same_outside_orders m1 m3.
Proof.
  unfold same_outside_orders.
  intros (?&?&?&?&?&?&?&?&?) (?&?&?&?&?&?&?&?&?).
  repeat split; congruence.
Qed.

Lemma evaluate_indexed_frame env tick w k :
  same_outside_orders (mem w) (mem (evaluate_indexed env tick w k)) ∧
  feed (evaluate_indexed env tick w k) = feed w.
Proof.
  unfold evaluate_indexed.
  repeat case_match; try (split; [apply same_outside_orders_refl | done]).
  apply check_and_execute_frame.
Qed.

Lemma evaluate_all_frame env tick l w :
  same_outside_orders (mem w) (mem (foldl (evaluate_indexed env tick) w l)) ∧
  feed (foldl (evaluate_indexed env tick) w l) = feed w.
Proof.
  revert w. induction l as [|k l IH]; intros w; simpl.
  { split; [apply same_outside_orders_refl | done]. }
  destruct (evaluate_indexed_frame env tick w k) as [H1 F1].
  destruct (IH (evaluate_indexed env tick w k)) as [H2 F2].
  split; [by eapply same_outside_orders_trans | congruence].
Qed.

Lemma placements_for_snoc_other id trace p :
  p_order_id p ≠ id → placements_for id (trace ++ [p]) = placements_for id trace.
Proof.
  intros Hne. unfold placements_for.
  rewrite filter_app, (filter_cons_False _ p) by done.
  by rewrite filter_nil, app_nil_r.
Qed.

Lemma untouched_refl id w : untouched id w w.
Proof. by unfold untouched. Qed.

Lemma untouched_trans id w1 w2 w3 :
  untouched id w1 w2 → untouched id w2 w3 → untouched id w1 w3.
Proof.
  unfold untouched. intros (?&?&?&?) (?&?&?&?). repeat split; congruence.
Qed.

Lemma complete_order_other env k status w id :
  k ≠ id → untouched id w (_complete_order env k status w).
Proof.
  intros Hne. unfold _complete_order, untouched.
  destruct (db_ok env _); simpl; [|done].
  by rewrite lookup_delete_ne, lookup_alter_ne.
Qed.

Lemma check_and_execute_other env k order tick w id :
  k ≠ id → untouched id w (_check_and_execute_order env k order tick w).
Proof.
  intros Hne. unfold _check_and_execute_order.
  destruct (execution_limit order <=? executions_done order).
  { eapply untouched_trans; [|by apply complete_order_other]. done. }
  destruct (should_execute order (last_price tick)) as [[|]|e]; [|done..].
  assert (untouched id w
    (calls_broker (placement_of k order (place_order_ok env k)) (logs INFO w)))
    as H0.
  { unfold untouched. simpl. by rewrite placements_for_snoc_other. }
  destruct (place_order_ok env k); [|exact H0].
  destruct (db_ok env (AtExecution k)).
  - destruct (execution_limit (incr_executions order)
                <=? executions_done (incr_executions order)).
    + eapply untouched_trans; [|by apply complete_order_other].
      unfold untouched in *. simpl in *.
      by rewrite lookup_insert_ne, lookup_alter_ne.
    + unfold untouched in *. simpl in *.
      by rewrite !lookup_insert_ne, lookup_alter_ne.
  - unfold untouched in *. simpl in *. by rewrite lookup_insert_ne.
Qed.

Lemma evaluate_indexed_other env tick w k id :
  k ≠ id → untouched id w (evaluate_indexed env tick w k).
Proof.
  intros Hne. unfold evaluate_indexed.
  repeat case_match; try apply untouched_refl.
  by apply check_and_execute_other.
Qed.

Lemma evaluate_all_other env tick l w id :
  id ∉ l → untouched id w (foldl (evaluate_indexed env tick) w l).
Proof.
  revert w. induction l as [|k l IH]; intros w Hnotin; simpl.
  { apply untouched_refl. }
  apply not_elem_of_cons in Hnotin as [Hne Hnotin].
  eapply untouched_trans; [|by apply IH].
  apply evaluate_indexed_other. congruence.
Qed.

(** X1.  A tick is evaluated only against the orders indexed under its
    instrument: an order that the index does not list there keeps its
    entry in [order_cache] and in [orders] and its row, and no call is made
    for it. *)
Theorem tick_leaves_unindexed_orders env tick w id :
  id ∉ default [] (orders_by_instrument (mem w) !! tick_instrument_token tick) →
  untouched id w (_process_tick_data env tick w).
Proof.
  intros Hnotin. unfold _process_tick_data.
  eapply untouched_trans; [|apply evaluate_all_other; exact Hnotin].
  done.
Qed.

Lemma tick_leaves_unindexed_orders_witness :
  untouched 2
    (world_with (sample_order 1 "MARKET" "BUY" None None 1 0))
    (_process_tick_data fair_env (tick_at 100)
       (world_with (sample_order 1 "MARKET" "BUY" None None 1 0))).
Proof.
  apply (tick_leaves_unindexed_orders fair_env (tick_at 100)
           (world_with (sample_order 1 "MARKET" "BUY" None None 1 0)) 2).
  vm_compute. intros H. apply list_elem_of_singleton in H. discriminate.
Defined.

(** ** The price view *)

Lemma process_tick_view env tick w :
  tick_cache (mem (_process_tick_data env tick w))
    = <[tick_instrument_token tick := (last_price tick, now env)]>
        (tick_cache (mem w)) ∧
  tick_data (mem (_process_tick_data env tick w))
    = <[tick_instrument_token tick := Some (last_price tick)]>
        (tick_data (mem w)).
Proof.
  unfold _process_tick_data.
  match goal with
  | |- context [foldl ?f ?w0 ?l] =>
      destruct (evaluate_all_frame env tick l w0) as [(_&_&Hc&Hd&_) _]
  end.
  by rewrite Hc, Hd.
Qed.

Lemma run_ticks_view_other ticks t w :
  Forall (λ et : Env * Tick, tick_instrument_token et.2 ≠ t) ticks →
  tick_cache (mem (run_ticks ticks w)) !! t = tick_cache (mem w) !! t ∧
  tick_data (mem (run_ticks ticks w)) !! t = tick_data (mem w) !! t.
Proof.
  unfold run_ticks. revert w.
  induction ticks as [|[env tick] ticks IH]; intros w Hall; simpl; [done|].
  apply Forall_cons in Hall as [Hne Hall]. simpl in Hne.
  destruct (IH (_process_tick_data env tick w) Hall) as [-> ->].
  destruct (process_tick_view env tick w) as [-> ->].
  by rewrite !lookup_insert_ne.
Qed.

(** X2.  The tick cache and the shared price view show, for each
    instrument, its most recent tick: after any run of ticks, what
    [_get_cached_tick] returns for an instrument, and the price in
    [tick_data], are those of the last tick of that instrument, whatever
    orders were evaluated on the way. *)
Theorem price_view_shows_last_tick ticks env tick later w :
  Forall (λ et : Env * Tick,
            tick_instrument_token et.2 ≠ tick_instrument_token tick) later →
  _get_cached_tick (tick_instrument_token tick)
                   (run_ticks (ticks ++ (env, tick) :: later) w)
    = Some (last_price tick, now env) ∧
  tick_data (mem (run_ticks (ticks ++ (env, tick) :: later) w))
    !! tick_instrument_token tick = Some (Some (last_price tick)).
Proof.
  intros Hlater. unfold _get_cached_tick.
  unfold run_ticks at 1 2. rewrite foldl_app. simpl.
  fold (run_ticks ticks w).
  match goal with
  | |- context [foldl ?f (_process_tick_data env tick ?w0) later] =>
      change (foldl f (_process_tick_data env tick w0) later)
        with (run_ticks later (_process_tick_data env tick w0));
      destruct (run_ticks_view_other later (tick_instrument_token tick)
                  (_process_tick_data env tick w0) Hlater) as [-> ->];
      destruct (process_tick_view env tick w0) as [-> ->]
  end.
  by rewrite !lookup_insert_eq.
Qed.

Lemma price_view_shows_last_tick_witness :
  _get_cached_tick 5
    (run_ticks ([(fair_env, tick_at 90)] ++ (fair_env, tick_at 100)
                  :: [(fair_env, mkTick 6 70 0)]) blank_world)
    = Some (100%Q, 0) ∧
  tick_data (mem (run_ticks ([(fair_env, tick_at 90)] ++ (fair_env, tick_at 100)
                                :: [(fair_env, mkTick 6 70 0)]) blank_world))
    !! 5 = Some (Some 100%Q).
Proof.
  apply (price_view_shows_last_tick [(fair_env, tick_at 90)] fair_env
           (tick_at 100) [(fair_env, mkTick 6 70 0)] blank_world).
  repeat constructor. simpl. lia.
Defined.

(** ** Index entries that are passed over *)

Lemma evaluate_skipped env tick w k :
  skipped w k → evaluate_indexed env tick w k = w.
Proof.
  unfold skipped, evaluate_indexed.
  destruct (order_cache (mem w) !! k) as [order|]; [|done].
  by intros ->.
Qed.

(** X3.  A tick whose instrument has no index entry, or only entries whose
    order is gone from [order_cache] or is marked [triggered], evaluates
    nothing: order cache, [orders], store and broker trace are unchanged. *)
Theorem tick_passes_over_skipped env tick w :
  Forall (skipped w)
    (default [] (orders_by_instrument (mem w) !! tick_instrument_token tick)) →
  same_orders w (_process_tick_data env tick w).
Proof.
  intros Hall. unfold _process_tick_data. simpl.
  set (w0 := on_mem _ (on_mem _ w)).
  assert (Forall (skipped w0)
            (default [] (orders_by_instrument (mem w) !! tick_instrument_token tick)))
    as Hall0 by exact Hall.
  assert (same_orders w w0) as H0 by done.
  clearbody w0. clear Hall.
  induction Hall0 as [|k l Hk Hl IH]; simpl; [done|].
  by rewrite (evaluate_skipped env tick w0 k Hk).
Qed.

Lemma tick_passes_over_skipped_witness :
  same_orders
    (world_with (mkOrder 1 "X" (Some 5) 10 "MARKET" None None "REGULAR" "CNC"
                         "DAY" "BUY" 1 0 true))
    (_process_tick_data fair_env (tick_at 100)
       (world_with (mkOrder 1 "X" (Some 5) 10 "MARKET" None None "REGULAR" "CNC"
                            "DAY" "BUY" 1 0 true))).
Proof.
  apply (tick_passes_over_skipped fair_env (tick_at 100)
           (world_with (mkOrder 1 "X" (Some 5) 10 "MARKET" None None "REGULAR"
                                "CNC" "DAY" "BUY" 1 0 true))).
  repeat constructor.
Defined.

(** ** Eligibility and prices *)

(** X7.  Eligibility is monotone in the price.  A LIMIT buy, and a
    stop-loss order that does not buy, that are eligible at one price are
    eligible at every lower price; a LIMIT sell and a stop-loss buy that
    are eligible at one price are eligible at every higher price. *)
Theorem eligibility_monotone_in_price (order : Order) (p p' : Q) :
  should_execute order p = Ok true →
  ((order_type order = "LIMIT" ∧ operation order = "BUY") ∨
   ((order_type order = "SL" ∨ order_type order = "SL-M") ∧
    operation order ≠ "BUY") →
   (p' <= p)%Q → should_execute order p' = Ok true) ∧
  ((order_type order = "LIMIT" ∧ operation order = "SELL") ∨
   ((order_type order = "SL" ∨ order_type order = "SL-M") ∧
    operation order = "BUY") →
   (p <= p')%Q → should_execute order p' = Ok true).
Proof.
  intros Hex. split.
  - intros [[Hty Hop] | [Hty Hop]] Hle.
    + revert Hex. unfold should_execute. rewrite Hty, Hop. simpl.
      destruct (py_le p (limit_price order)) as [[|]|e] eqn:Hp; simpl;
        try discriminate.
      intros _. apply py_le_true in Hp as (l & Hl & Hpl).
      assert (py_le p' (limit_price order) = Ok true) as ->; [|done].
      apply py_le_true. exists l. split; [done|]. eauto using Qle_trans.
    + revert Hex. rewrite !(should_execute_stop_loss _ _ Hty).
      apply String.eqb_neq in Hop. rewrite Hop.
      rewrite !py_le_true. intros (l & Hl & Hpl).
      exists l. split; [done|]. eauto using Qle_trans.
  - intros [[Hty Hop] | [Hty Hop]] Hle.
    + revert Hex. unfold should_execute. rewrite Hty, Hop. simpl.
      rewrite !py_ge_true. intros (l & Hl & Hpl).
      exists l. split; [done|]. eauto using Qle_trans.
    + revert Hex. rewrite !(should_execute_stop_loss _ _ Hty).
      rewrite Hop. simpl.
      rewrite !py_ge_true. intros (l & Hl & Hpl).
      exists l. split; [done|]. eauto using Qle_trans.
Qed.

Lemma eligibility_monotone_in_price_witness :
  should_execute (sample_order 1 "LIMIT" "BUY" (Some 100%Q) None 1 0) 42
    = Ok true.
Proof.
  apply (proj1 (eligibility_monotone_in_price
                  (sample_order 1 "LIMIT" "BUY" (Some 100%Q) None 1 0) 99 42
                  eq_refl)).
  - left. split; reflexivity.
  - vm_compute. discriminate.
Defined.

(** X8.  The evaluation of the trigger raises exactly when the price it
    has to compare with is [None] or missing: a LIMIT order that buys or
    sells without a limit price, a stop-loss order without a trigger
    price. *)
Theorem should_execute_raises_iff (order : Order) (p : Q) :
  (∃ e, should_execute order p = Raise e) ↔
  (order_type order = "LIMIT" ∧
   (operation order = "BUY" ∨ operation order = "SELL") ∧
   limit_price order = None) ∨
  ((order_type order = "SL" ∨ order_type order = "SL-M") ∧
   trigger_price order = None).
Proof.
  split.
  - intros [e He]. revert He. unfold should_execute.
    destruct (String.eqb_spec (order_type order) "MARKET"); [discriminate|].
    destruct (String.eqb_spec (order_type order) "LIMIT") as [Hl|Hl].
    { destruct (String.eqb_spec (operation order) "BUY") as [Hb|Hb]; simpl.
      - destruct (limit_price order) as [l|]; simpl; [|intros _; left; eauto].
        destruct (Qle_bool p l); simpl; [discriminate|].
        rewrite Hb. simpl. discriminate.
      - destruct (String.eqb_spec (operation order) "SELL"); simpl;
          [|discriminate].
        destruct (limit_price order); simpl; [discriminate|].
        intros _. left. eauto. }
    destruct (String.eqb_spec (order_type order) "SL") as [Hsl|Hsl]; simpl.
    { destruct (operation order =? "BUY")%string;
        (destruct (trigger_price order); simpl; [discriminate|]);
        intros _; right; eauto. }
    destruct (String.eqb_spec (order_type order) "SL-M") as [Hslm|Hslm];
      [|discriminate].
    destruct (operation order =? "BUY")%string;
      (destruct (trigger_price order); simpl; [discriminate|]);
      intros _; right; eauto.
  - intros [(Hty & Hop & Hlim) | (Hty & Htr)].
    + unfold should_execute. rewrite Hty, Hlim. simpl.
      destruct Hop as [-> | ->]; simpl; eauto.
    + rewrite (should_execute_stop_loss _ _ Hty), Htr.
      destruct (operation order =? "BUY")%string; simpl; eauto.
Qed.

Lemma should_execute_raises_iff_witness :
  ∃ e, should_execute (sample_order 1 "LIMIT" "BUY" None None 1 0) 100 = Raise e.
Proof.
  apply (proj2 (should_execute_raises_iff
                  (sample_order 1 "LIMIT" "BUY" None None 1 0) 100)).
  left. split; [reflexivity|]. split; [left|]; reflexivity.
Defined.

(** ** Orders that are never placed, and orders that are placed again *)

(** An evaluation of an order that is not eligible at the price of the tick
    makes no call and leaves the world's orders alone, but for the log. *)
Lemma check_and_execute_not_eligible env id order tick w :
  executions_done order < execution_limit order →
  should_execute order (last_price tick) ≠ Ok true →
  same_orders w (_check_and_execute_order env id order tick w).
Proof.
  intros Hlt Hne. unfold _check_and_execute_order. below_limit order.
  by destruct (should_execute order (last_price tick)) as [[|]|e].
Qed.

Lemma missing_price_never_eligible (order : Order) :
  (order_type order ≠ "MARKET" ∧ order_type order ≠ "LIMIT" ∧
   order_type order ≠ "SL" ∧ order_type order ≠ "SL-M") ∨
  (order_type order = "LIMIT" ∧ limit_price order = None) ∨
  ((order_type order = "SL" ∨ order_type order = "SL-M") ∧
   trigger_price order = None) →
  ∀ p, should_execute order p ≠ Ok true.
Proof.
  intros [(Hm & Hl & Hs & Hsm) | [(Hty & Hlim) | (Hty & Htr)]] p.
  - unfold should_execute.
    apply String.eqb_neq in Hm, Hl, Hs, Hsm. by rewrite Hm, Hl, Hs, Hsm.
  - unfold should_execute. rewrite Hty, Hlim. simpl.
    destruct (operation order =? "BUY")%string,
             (operation order =? "SELL")%string; simpl; discriminate.
  - rewrite (should_execute_stop_loss _ _ Hty), Htr.
    destruct (operation order =? "BUY")%string; simpl; discriminate.
Qed.

(** X4.  An order that can never be eligible is never placed: when
    [order_type] is none of MARKET, LIMIT, SL, SL-M, or the order is a
    LIMIT order without a limit price or a stop-loss order without a
    trigger price, no sequence of ticks makes a call to the broker for it,
    and its entry in [order_cache] stays what it was. *)
Theorem unexecutable_order_never_placed ticks id order w :
  order_cache (mem w) !! id = Some order →
  executions_done order < execution_limit order →
  (order_type order ≠ "MARKET" ∧ order_type order ≠ "LIMIT" ∧
   order_type order ≠ "SL" ∧ order_type order ≠ "SL-M") ∨
  (order_type order = "LIMIT" ∧ limit_price order = None) ∨
  ((order_type order = "SL" ∨ order_type order = "SL-M") ∧
   trigger_price order = None) →
  order_cache (mem (run_ticks ticks w)) !! id = Some order ∧
  placements_for id (broker (run_ticks ticks w)) = placements_for id (broker w).
Proof.
  intros Hcache Hlt Hnever.
  pose proof (missing_price_never_eligible order Hnever) as Hne.
  unfold run_ticks.
  apply (foldl_invariant
    (λ w', order_cache (mem w') !! id = Some order ∧
           placements_for id (broker w') = placements_for id (broker w)));
    [done|].
  intros a [env tick] [Ha Hb]. simpl. unfold _process_tick_data.
  apply (foldl_invariant
    (λ w', order_cache (mem w') !! id = Some order ∧
           placements_for id (broker w') = placements_for id (broker w)));
    [done|].
  intros a' k [Ha' Hb'].
  destruct (decide (k = id)) as [->|Hk].
  - unfold evaluate_indexed. rewrite Ha'.
    destruct (triggered order); [done|].
    destruct (check_and_execute_not_eligible env id order tick a' Hlt (Hne _))
      as (-> & _ & _ & ->).
    done.
  - destruct (evaluate_indexed_other env tick a' k id Hk) as (-> & _ & _ & ->).
    done.
Qed.

Lemma unexecutable_order_never_placed_witness :
  order_cache (mem (run_ticks [(fair_env, tick_at 100); (fair_env, tick_at 1)]
    (world_with (sample_order 1 "LIMIT" "BUY" None None 1 0)))) !! 1
    = Some (sample_order 1 "LIMIT" "BUY" None None 1 0) ∧
  placements_for 1 (broker (run_ticks [(fair_env, tick_at 100); (fair_env, tick_at 1)]
    (world_with (sample_order 1 "LIMIT" "BUY" None None 1 0))))
    = placements_for 1 (broker (world_with (sample_order 1 "LIMIT" "BUY" None None 1 0))).
Proof.
  apply (unexecutable_order_never_placed
           [(fair_env, tick_at 100); (fair_env, tick_at 1)] 1
           (sample_order 1 "LIMIT" "BUY" None None 1 0)
           (world_with (sample_order 1 "LIMIT" "BUY" None None 1 0))).
  - reflexivity.
  - simpl. lia.
  - right. left. split; reflexivity.
Defined.

Lemma sequential_placements_bounded_witness :
  Z.of_nat (length (accepted_for 1 (broker
    (run_ticks [(fair_env, tick_at 100); (fair_env, tick_at 101);
                (fair_env, tick_at 102)]
       (world_with (sample_order 1 "MARKET" "BUY" None None 2 0))))))
  ≤ Z.of_nat (length (accepted_for 1 (broker
      (world_with (sample_order 1 "MARKET" "BUY" None None 2 0)))))
    + (2 - 0).
Proof.
  apply (sequential_placements_bounded
           [(fair_env, tick_at 100); (fair_env, tick_at 101);
            (fair_env, tick_at 102)] 1
           (sample_order 1 "MARKET" "BUY" None None 2 0)
           (world_with (sample_order 1 "MARKET" "BUY" None None 2 0))).
  - reflexivity.
  - simpl. lia.
Defined.

(** A refused placement of an order below its limit: one call on the trace,
    nothing else about orders changed. *)
Lemma check_and_execute_refused env id order tick w :
  executions_done order < execution_limit order →
  should_execute order (last_price tick) = Ok true →
  place_order_ok env id = false →
  same_outside_orders (mem w) (mem (_check_and_execute_order env id order tick w)) ∧
  order_cache (mem (_check_and_execute_order env id order tick w))
    = order_cache (mem w) ∧
  broker (_check_and_execute_order env id order tick w)
    = (broker w ++ [placement_of id order false])%list.
Proof.
  intros Hlt Hex Hpl.
  split; [apply check_and_execute_frame|].
  unfold _check_and_execute_order. below_limit order.
  by rewrite Hex, Hpl.
Qed.

(** X6.  Refused placements are tried again without bound.  Take an order
    below its limit that the index lists once under its instrument.  While
    the broker refuses it, every qualifying tick of the instrument calls
    the broker once more for it: after [n] such ticks the trace has [n]
    more refused calls for the order, whatever its [execution_limit], and
    the counter has not moved.  The other orders listed under the
    instrument may be placed or not. *)
Theorem refused_placement_retried_every_tick ticks id order t l1 l2 w :
  order_cache (mem w) !! id = Some order →
  triggered order = false →
  executions_done order < execution_limit order →
  orders_by_instrument (mem w) !! t = Some (l1 ++ id :: l2)%list →
  id ∉ l1 →
  id ∉ l2 →
  Forall (λ et : Env * Tick,
            tick_instrument_token et.2 = t ∧
            should_execute order (last_price et.2) = Ok true ∧
            place_order_ok et.1 id = false) ticks →
  order_cache (mem (run_ticks ticks w)) !! id = Some order ∧
  placements_for id (broker (run_ticks ticks w))
    = (placements_for id (broker w)
       ++ replicate (length ticks) (placement_of id order false))%list.
Proof.
  intros Hcache Htr Hlt Hix Hn1 Hn2 Hall. unfold run_ticks.
  revert w Hcache Hix.
  induction Hall as [|[env tick] ticks (Htok & Hex & Hpl) _ IH];
    intros w Hcache Hix; simpl in *.
  { by rewrite app_nil_r. }
  assert (order_cache (mem (_process_tick_data env tick w)) !! id = Some order ∧
          orders_by_instrument (mem (_process_tick_data env tick w))
            = orders_by_instrument (mem w) ∧
          placements_for id (broker (_process_tick_data env tick w))
            = (placements_for id (broker w) ++ [placement_of id order false])%list)
    as (Hc' & Hix' & Hb').
  { unfold _process_tick_data. rewrite Htok. simpl. rewrite Hix. simpl.
    rewrite foldl_app. simpl.
    match goal with
    | |- context [foldl (evaluate_indexed env tick) ?w0 l1] =>
        destruct (evaluate_all_other env tick l1 w0 id Hn1) as (Hc1 & _ & _ & Hb1);
        destruct (evaluate_all_frame env tick l1 w0) as [(_&_&_&_&Hi1&_) _];
        set (w1 := foldl (evaluate_indexed env tick) w0 l1) in *
    end.
    simpl in Hc1, Hb1, Hi1. rewrite Hcache in Hc1.
    unfold evaluate_indexed at 2 4 6. rewrite Hc1, Htr.
    destruct (check_and_execute_refused env id order tick w1 Hlt Hex Hpl)
      as ((_&_&_&_&Hi2&_) & Hc2 & Hb2).
    match goal with
    | |- context [foldl (evaluate_indexed env tick) ?w2 l2] =>
        destruct (evaluate_all_other env tick l2 w2 id Hn2) as (Hc3 & _ & _ & Hb3);
        destruct (evaluate_all_frame env tick l2 w2) as [(_&_&_&_&Hi3&_) _]
    end.
    rewrite Hc3, Hb3, Hi3, Hc2, Hb2, Hi2, Hi1, Hc1. split; [done|]. split; [done|].
    unfold placements_for at 1. rewrite filter_app.
    rewrite (filter_cons_True _ (placement_of id order false)) by done.
    rewrite filter_nil. by rewrite <- Hb1. }
  destruct (IH (_process_tick_data env tick w)) as [-> ->].
  - done.
  - by rewrite Hix'.
  - split; [done|]. rewrite Hb'. by rewrite <- app_assoc.
Qed.

Lemma refused_placement_retried_every_tick_witness :
  order_cache (mem (run_ticks
      [(refusing_env, tick_at 100); (refusing_env, tick_at 101);
       (refusing_env, tick_at 102)]
      (world_with (sample_order 1 "MARKET" "BUY" None None 1 0)))) !! 1
    = Some (sample_order 1 "MARKET" "BUY" None None 1 0) ∧
  placements_for 1 (broker (run_ticks
      [(refusing_env, tick_at 100); (refusing_env, tick_at 101);
       (refusing_env, tick_at 102)]
      (world_with (sample_order 1 "MARKET" "BUY" None None 1 0))))
    = (placements_for 1
         (broker (world_with (sample_order 1 "MARKET" "BUY" None None 1 0)))
       ++ replicate 3
            (placement_of 1 (sample_order 1 "MARKET" "BUY" None None 1 0) false))%list.
Proof.
  apply (refused_placement_retried_every_tick
           [(refusing_env, tick_at 100); (refusing_env, tick_at 101);
            (refusing_env, tick_at 102)] 1
           (sample_order 1 "MARKET" "BUY" None None 1 0) 5 [] []
           (world_with (sample_order 1 "MARKET" "BUY" None None 1 0))).
  - reflexivity.
  - reflexivity.
  - simpl. lia.
  - reflexivity.
  - apply not_elem_of_nil.
  - apply not_elem_of_nil.
  - repeat constructor.
Defined.

(** ** Admission *)

Lemma get_instrument_token_frame env sym w :
  same_but_token_caches w (_get_instrument_token env sym w).2.
Proof.
  unfold _get_instrument_token, same_but_token_caches.
  by repeat case_match.
Qed.

(** [add_order] after a successful resolution. *)
Lemma add_order_resolved env order_details w t w1 :
  _get_instrument_token env (trading_symbol order_details) w = (Ok t, w1) →
  add_order env order_details w =
    if bool_decide (t ∈ subscribed_instruments (mem w1))
    then (Ok (), admitted t order_details w1)
    else
      match subscribe_instruments env [t] (admitted t order_details w1) with
      | (Raise e, w2) => (Raise e, logs ERROR w2)
      | (Ok u, w2) => (Ok u, w2)
      end.
Proof. intros Hres. unfold add_order. by rewrite Hres. Qed.

(** The subscription of one instrument that is not on record. *)
Lemma subscribe_one env t w :
  t ∉ subscribed_instruments (mem w) →
  subscribe_instruments env [t] w =
    if negb (connection_ready (mem w)) then (Ok (), logs WARNING w)
    else if subscribe_ok env then
      (Ok (),
       on_mem (set_tick_data (<[t := None]>))
         (on_mem (set_subscribed_instruments (λ l, (l ++ [t])%list))
            (calls_subscribe [t] (logs INFO w))))
    else (Raise KiteException, logs ERROR (logs INFO w)).
Proof.
  intros Hnotin. unfold subscribe_instruments.
  destruct (connection_ready (mem w)); simpl; [|done].
  rewrite (filter_cons_True _ t) by done. by rewrite filter_nil.
Qed.

(** X9.  Once the token is resolved the order is admitted, whatever
    happens next: it is in [order_cache] with its token and it is the last
    of [order_queue]; the insert job handed to [db_queue] is lost, so that
    queue and the store are as they were.  [add_order] raises after that
    exactly when the feed is connected, the instrument is not on record
    and [ticker.subscribe] fails; the order stays admitted. *)
Theorem add_order_admits_before_subscribing env order_details w t w1 :
  _get_instrument_token env (trading_symbol order_details) w = (Ok t, w1) →
  order_cache (mem (add_order env order_details w).2) !! order_id order_details
    = Some (with_instrument_token t order_details) ∧
  db_queue (mem (add_order env order_details w).2) = db_queue (mem w) ∧
  order_queue (mem (add_order env order_details w).2)
    = (order_queue (mem w) ++ [with_instrument_token t order_details])%list ∧
  store (add_order env order_details w).2 = store w ∧
  ((∃ e, (add_order env order_details w).1 = Raise e) ↔
   (connection_ready (mem w) = true ∧
    (t ∉ subscribed_instruments (mem w)) ∧
    subscribe_ok env = false)).
Proof.
  intros Hres. rewrite (add_order_resolved _ _ _ _ _ Hres).
  pose proof (get_instrument_token_frame env (trading_symbol order_details) w)
    as Hf.
  rewrite Hres in Hf. simpl in Hf.
  destruct Hf as (_&_&_&_&_&Hoq&Hdq&Hsub&Hready&Hst&_&_).
  rewrite <- Hoq, <- Hdq, <- Hsub, <- Hready, <- Hst.
  case_bool_decide as Hin.
  { simpl. rewrite lookup_insert_eq. do 4 (split; [done|]). split.
    - intros [e [=]].
    - by intros (_ & Hnotin & _). }
  rewrite subscribe_one by done. simpl.
  destruct (connection_ready (mem w1)); simpl.
  - destruct (subscribe_ok env); simpl; rewrite lookup_insert_eq;
      do 4 (split; [done|]); split.
    + intros [e [=]].
    + by intros (_ & _ & [=]).
    + done.
    + eauto.
  - rewrite lookup_insert_eq. do 4 (split; [done|]). split.
    + intros [e [=]].
    + by intros ([=] & _).
Qed.

Lemma add_order_admits_before_subscribing_witness :
  order_cache (mem (add_order
      (mkEnv (λ _, Some 5) (λ _, true) (λ _, true) false 0)
      (sample_order 1 "MARKET" "BUY" None None 1 0) blank_world).2) !! 1
    = Some (with_instrument_token 5 (sample_order 1 "MARKET" "BUY" None None 1 0)) ∧
  (add_order (mkEnv (λ _, Some 5) (λ _, true) (λ _, true) false 0)
     (sample_order 1 "MARKET" "BUY" None None 1 0) blank_world).1
    = Raise KiteException.
Proof.
  split.
  - apply (add_order_admits_before_subscribing
             (mkEnv (λ _, Some 5) (λ _, true) (λ _, true) false 0)
             (sample_order 1 "MARKET" "BUY" None None 1 0) blank_world 5
             (_get_instrument_token
                (mkEnv (λ _, Some 5) (λ _, true) (λ _, true) false 0)
                "X" blank_world).2).
    reflexivity.
  - reflexivity.
Defined.

(** X10.  [add_order] keeps the record of subscriptions sound.  It never
    removes an instrument from [subscribed_instruments] and never enters
    one twice; it calls [ticker.subscribe] at most once, for the
    instrument of the order alone, and not at all when that instrument is
    on record; and when it returns normally on a connected feed, the
    instrument of the order is on record. *)
Theorem add_order_subscribes_once env order_details w t w1 :
  _get_instrument_token env (trading_symbol order_details) w = (Ok t, w1) →
  (NoDup (subscribed_instruments (mem w)) →
   NoDup (subscribed_instruments (mem (add_order env order_details w).2))) ∧
  (∀ i, i ∈ subscribed_instruments (mem w) →
        i ∈ subscribed_instruments (mem (add_order env order_details w).2)) ∧
  (feed (add_order env order_details w).2 = feed w ∨
   feed (add_order env order_details w).2 = (feed w ++ [[t]])%list) ∧
  (t ∈ subscribed_instruments (mem w) →
   feed (add_order env order_details w).2 = feed w) ∧
  (connection_ready (mem w) = true →
   (add_order env order_details w).1 = Ok () →
   t ∈ subscribed_instruments (mem (add_order env order_details w).2)).
Proof.
  intros Hres. rewrite (add_order_resolved _ _ _ _ _ Hres).
  pose proof (get_instrument_token_frame env (trading_symbol order_details) w)
    as Hf.
  rewrite Hres in Hf. simpl in Hf.
  destruct Hf as (_&_&_&_&_&_&_&Hsub&Hready&_&_&Hfeed).
  rewrite <- Hsub, <- Hready, <- Hfeed.
  case_bool_decide as Hin.
  { simpl. repeat split; try done. by left. }
  rewrite subscribe_one by done. simpl.
  destruct (connection_ready (mem w1)); simpl.
  - destruct (subscribe_ok env); simpl.
    + split; [|split; [|split; [|split]]].
      * intros Hnd. apply NoDup_app. split; [done|]. split.
        -- intros x Hx ->%list_elem_of_singleton. done.
        -- apply NoDup_singleton.
      * intros i Hi. apply elem_of_app. by left.
      * by right.
      * done.
      * intros _ _. apply elem_of_app. right. apply list_elem_of_here.
    + repeat split; try done. by left.
  - repeat split; try done. by left.
Qed.

Lemma add_order_subscribes_once_witness :
  5 ∈ subscribed_instruments
        (mem (add_order fair_env (sample_order 1 "MARKET" "BUY" None None 1 0)
                blank_world).2).
Proof.
  apply (proj2 (proj2 (proj2 (proj2
           (add_order_subscribes_once fair_env
              (sample_order 1 "MARKET" "BUY" None None 1 0) blank_world 5
              (_get_instrument_token fair_env "X" blank_world).2
              eq_refl)))));
    reflexivity.
Defined.

(** ** Orders admitted while the feed is down *)

Lemma on_connect_effect env w :
  subscribed_instruments (mem (on_connect env w).2)
    = subscribed_instruments (mem w) ∧
  connection_ready (mem (on_connect env w).2) = true ∧
  (feed (on_connect env w).2 = feed w ∨
   feed (on_connect env w).2
     = (feed w ++ [subscribed_instruments (mem w)])%list).
Proof.
  unfold on_connect. simpl.
  destruct (subscribed_instruments (mem w)) as [|i l] eqn:Hl; simpl.
  { do 2 (split; [done|]). by left. }
  destruct (subscribe_ok env); simpl; do 2 (split; [done|]).
  - by right.
  - by left.
Qed.

(** X11.  An order added while the feed is not connected is admitted and
    [add_order] returns normally, but its instrument is neither subscribed
    nor put on record; and the reconnection does not make up for it:
    [on_connect] subscribes the instruments on record and no other, so no
    subscription ever names the instrument of that order. *)
Theorem order_added_while_disconnected env env' order_details w t w1 :
  _get_instrument_token env (trading_symbol order_details) w = (Ok t, w1) →
  connection_ready (mem w) = false →
  t ∉ subscribed_instruments (mem w) →
  (add_order env order_details w).1 = Ok () ∧
  order_cache (mem (add_order env order_details w).2) !! order_id order_details
    = Some (with_instrument_token t order_details) ∧
  subscribed_instruments (mem (add_order env order_details w).2)
    = subscribed_instruments (mem w) ∧
  feed (add_order env order_details w).2 = feed w ∧
  subscribed_instruments
    (mem (on_connect env' (add_order env order_details w).2).2)
    = subscribed_instruments (mem w) ∧
  connection_ready (mem (on_connect env' (add_order env order_details w).2).2)
    = true ∧
  (feed (on_connect env' (add_order env order_details w).2).2 = feed w ∨
   feed (on_connect env' (add_order env order_details w).2).2
     = (feed w ++ [subscribed_instruments (mem w)])%list).
Proof.
  intros Hres Hready Hnotin. rewrite (add_order_resolved _ _ _ _ _ Hres).
  pose proof (get_instrument_token_frame env (trading_symbol order_details) w)
    as Hf.
  rewrite Hres in Hf. simpl in Hf.
  destruct Hf as (_&_&_&_&_&_&_&Hsub&Hready1&_&_&Hfeed).
  rewrite <- Hsub in Hnotin. rewrite <- Hready1 in Hready.
  rewrite bool_decide_eq_false_2 by done.
  rewrite subscribe_one by done. simpl. rewrite Hready. simpl.
  rewrite lookup_insert_eq. do 4 (split; [done|]).
  match goal with
  | |- context [on_connect env' ?w2] =>
      destruct (on_connect_effect env' w2) as (-> & -> & Hf)
  end.
  simpl in *. by rewrite <- Hsub, <- Hfeed.
Qed.

Lemma order_added_while_disconnected_witness :
  (add_order fair_env (sample_order 1 "MARKET" "BUY" None None 1 0)
     (on_close blank_world)).1 = Ok () ∧
  subscribed_instruments
    (mem (on_connect fair_env
            (add_order fair_env (sample_order 1 "MARKET" "BUY" None None 1 0)
               (on_close blank_world)).2).2) = [] ∧
  feed (on_connect fair_env
          (add_order fair_env (sample_order 1 "MARKET" "BUY" None None 1 0)
             (on_close blank_world)).2).2 = [].
Proof.
  destruct (order_added_while_disconnected fair_env fair_env
              (sample_order 1 "MARKET" "BUY" None None 1 0)
              (on_close blank_world) 5
              (_get_instrument_token fair_env "X" (on_close blank_world)).2
              eq_refl eq_refl)
    as (H1 & _ & _ & _ & H5 & _ & _).
  - vm_compute. apply not_elem_of_nil.
  - split; [exact H1|]. split; [exact H5|]. reflexivity.
Defined.

(** ** What admission writes *)

Lemma add_order_effect env order_details w t w1 :
  _get_instrument_token env (trading_symbol order_details) w = (Ok t, w1) →
  order_cache (mem (add_order env order_details w).2)
    = <[order_id order_details := with_instrument_token t order_details]>
        (order_cache (mem w)) ∧
  order_queue (mem (add_order env order_details w).2)
    = (order_queue (mem w) ++ [with_instrument_token t order_details])%list ∧
  orders_by_instrument (mem (add_order env order_details w).2)
    = orders_by_instrument (mem w) ∧
  broker (add_order env order_details w).2 = broker w.
Proof.
  intros Hres. rewrite (add_order_resolved _ _ _ _ _ Hres).
  pose proof (get_instrument_token_frame env (trading_symbol order_details) w)
    as Hf.
  rewrite Hres in Hf. simpl in Hf.
  destruct Hf as (_&Hc&_&_&Hix&Hoq&_&_&_&_&Hb&_).
  rewrite <- Hc, <- Hix, <- Hoq, <- Hb.
  case_bool_decide as Hin; [done|].
  rewrite subscribe_one by done. simpl.
  destruct (connection_ready (mem w1)); simpl; [|done].
  by destruct (subscribe_ok env).
Qed.

Lemma add_order_store env order_details w :
  store (add_order env order_details w).2 = store w.
Proof.
  pose proof (get_instrument_token_frame env (trading_symbol order_details) w)
    as (_&_&_&_&_&_&_&_&_&Hst&_).
  destruct (_get_instrument_token env (trading_symbol order_details) w)
    as [[t|e] w1] eqn:Hres; simpl in *.
  - rewrite (add_order_resolved _ _ _ _ _ Hres).
    case_bool_decide as Hin; [done|].
    rewrite subscribe_one by done. simpl.
    destruct (connection_ready (mem w1)); simpl; [|done].
    by destruct (subscribe_ok env).
  - unfold add_order. by rewrite Hres.
Qed.

Lemma add_order_db_queue env order_details w :
  db_queue (mem (add_order env order_details w).2) = db_queue (mem w).
Proof.
  pose proof (get_instrument_token_frame env (trading_symbol order_details) w)
    as (_&_&_&_&_&_&Hdq&_).
  destruct (_get_instrument_token env (trading_symbol order_details) w)
    as [[t|e] w1] eqn:Hres; simpl in *.
  - rewrite (add_order_resolved _ _ _ _ _ Hres).
    case_bool_decide as Hin; [done|].
    rewrite subscribe_one by done. simpl.
    destruct (connection_ready (mem w1)); simpl; [|done].
    by destruct (subscribe_ok env).
  - unfold add_order. by rewrite Hres.
Qed.

(** ** Cancellation and modification of orders the manager only caches *)

(** X13.  [add_order] writes no row of [pending_orders]: the job that
    would insert one is lost.  [cancel_order] called right after
    [add_order] for an order that has no row finds nothing to update: it
    returns normally with a warning and changes neither the manager nor
    the store, so the order stays in [order_cache], and [db_queue] holds
    what it held before the order was added. *)
Theorem cancel_after_add_changes_nothing env env' order_details w t w1 :
  _get_instrument_token env (trading_symbol order_details) w = (Ok t, w1) →
  pending_orders (store w) !! order_id order_details = None →
  db_ok env' (AtCancel (order_id order_details)) = true →
  let wa := (add_order env order_details w).2 in
  let wc := (cancel_order env' (order_id order_details) wa).2 in
  (cancel_order env' (order_id order_details) wa).1 = Ok () ∧
  last (log wc) = Some WARNING ∧
  mem wc = mem wa ∧
  store wc = store w ∧
  order_cache (mem wc) !! order_id order_details
    = Some (with_instrument_token t order_details) ∧
  db_queue (mem wc) = db_queue (mem w).
Proof.
  intros Hres Hrow Hdb wa wc.
  assert (pending_row (order_id order_details) (store wa) = None) as Hnone.
  { subst wa. rewrite add_order_store. unfold pending_row. by rewrite Hrow. }
  destruct (cancel_order_not_pending env' _ wa Hdb Hnone)
    as (w' & Hc & Hmem & Hst & Hlog).
  subst wc. rewrite Hc. simpl. rewrite Hmem, Hst.
  subst wa. rewrite add_order_store, add_order_db_queue.
  do 4 (split; [done|]). split; [|done].
  destruct (add_order_effect env order_details w t w1 Hres) as (-> & _).
  apply lookup_insert_eq.
Qed.

Lemma cancel_after_add_changes_nothing_witness :
  let o := sample_order 1 "MARKET" "BUY" None None 1 0 in
  let wa := (add_order fair_env o blank_world).2 in
  let wc := (cancel_order fair_env 1 wa).2 in
  (cancel_order fair_env 1 wa).1 = Ok () ∧
  last (log wc) = Some WARNING ∧
  mem wc = mem wa ∧
  store wc = store blank_world ∧
  order_cache (mem wc) !! 1 = Some (with_instrument_token 5 o) ∧
  db_queue (mem wc) = db_queue (mem blank_world).
Proof.
  apply (cancel_after_add_changes_nothing fair_env fair_env
           (sample_order 1 "MARKET" "BUY" None None 1 0) blank_world 5
           (_get_instrument_token fair_env "X" blank_world).2);
    reflexivity.
Defined.

(** X15.  An order that has a PENDING row and is not in [orders] cannot be
    modified: [modify_order] finds the row, fails with [KeyError] on
    [self.orders[order_id]], and the connection scope rolls the update
    back, so the store and the manager are as they were and an error is
    logged.  Such are the orders [_init_caches] recovers at start-up, which
    it puts into [order_cache] and not into [orders]. *)
Theorem modify_outside_orders_rolls_back env id new_details w r :
  pending_orders (store w) !! id = Some r →
  row_status r = "PENDING" →
  orders (mem w) !! id = None →
  db_ok env (AtModify id) = true →
  (modify_order env id new_details w).1 = Raise KeyError ∧
  store (modify_order env id new_details w).2 = store w ∧
  mem (modify_order env id new_details w).2 = mem w ∧
  last (log (modify_order env id new_details w).2) = Some ERROR.
Proof.
  intros Hrow Hst Ho Hdb. unfold modify_order. simpl. rewrite Hdb.
  unfold pending_row. rewrite Hrow, Hst. simpl. rewrite Ho. simpl.
  do 3 (split; [done|]). apply last_snoc.
Qed.

Lemma modify_outside_orders_rolls_back_witness :
  let o := sample_order 1 "MARKET" "BUY" None None 1 0 in
  let d := mkDetails "X" 20 "MARKET" None None "REGULAR" "CNC" "DAY" "SELL" in
  let w := _init_caches true false (constructed (store (world_with o))) in
  order_cache (mem w) !! 1 = Some o ∧
  (modify_order fair_env 1 d w).1 = Raise KeyError ∧
  store (modify_order fair_env 1 d w).2 = store w ∧
  mem (modify_order fair_env 1 d w).2 = mem w ∧
  last (log (modify_order fair_env 1 d w).2) = Some ERROR.
Proof.
  split; [reflexivity|].
  apply (modify_outside_orders_rolls_back fair_env 1
           (mkDetails "X" 20 "MARKET" None None "REGULAR" "CNC" "DAY" "SELL")
           (_init_caches true false
              (constructed
                 (store (world_with (sample_order 1 "MARKET" "BUY" None None 1 0)))))
           (mkRow (sample_order 1 "MARKET" "BUY" None None 1 0) "PENDING" None None));
    reflexivity.
Defined.

(** ** What tick evaluation depends on *)

Lemma check_and_execute_sim env id order tick w w' :
  same_for_ticks w w' →
  same_for_ticks (_check_and_execute_order env id order tick w)
                 (_check_and_execute_order env id order tick w').
Proof.
  intros (Hc & Hi & Hb).
  unfold _check_and_execute_order, _complete_order, same_for_ticks.
  repeat case_match; simpl; by rewrite ?Hc, ?Hi, ?Hb.
Qed.

Lemma evaluate_indexed_sim env tick k w w' :
  same_for_ticks w w' →
  same_for_ticks (evaluate_indexed env tick w k) (evaluate_indexed env tick w' k).
Proof.
  intros H. unfold evaluate_indexed.
  destruct H as (Hc & Hi & Hb). rewrite Hc.
  repeat case_match; try done.
  by apply check_and_execute_sim.
Qed.

Lemma run_ticks_sim ticks w w' :
  same_for_ticks w w' →
  same_for_ticks (run_ticks ticks w) (run_ticks ticks w').
Proof.
  unfold run_ticks. revert w w'.
  induction ticks as [|[env tick] ticks IH]; intros w w' H; simpl; [done|].
  apply IH. unfold _process_tick_data.
  destruct H as (Hc & Hi & Hb). simpl. rewrite Hi.
  generalize (default [] (orders_by_instrument (mem w)
                            !! tick_instrument_token tick)).
  intros l.
  assert (same_for_ticks
    (on_mem (set_tick_data (<[tick_instrument_token tick := Some (last_price tick)]>))
       (on_mem (set_tick_cache
                  (<[tick_instrument_token tick := (last_price tick, now env)]>)) w))
    (on_mem (set_tick_data (<[tick_instrument_token tick := Some (last_price tick)]>))
       (on_mem (set_tick_cache
                  (<[tick_instrument_token tick := (last_price tick, now env)]>)) w')))
    as H0 by done.
  revert H0. generalize
    (on_mem (set_tick_data (<[tick_instrument_token tick := Some (last_price tick)]>))
       (on_mem (set_tick_cache
                  (<[tick_instrument_token tick := (last_price tick, now env)]>)) w))
    (on_mem (set_tick_data (<[tick_instrument_token tick := Some (last_price tick)]>))
       (on_mem (set_tick_cache
                  (<[tick_instrument_token tick := (last_price tick, now env)]>)) w')).
  induction l as [|k l IHl]; intros a a' Ha; simpl; [done|].
  by apply IHl, evaluate_indexed_sim.
Qed.

Lemma cancel_order_same_for_ticks env id w :
  same_for_ticks w (cancel_order env id w).2.
Proof. unfold cancel_order, same_for_ticks. by repeat case_match. Qed.

Lemma modify_order_same_for_ticks env id new_details w :
  same_for_ticks w (modify_order env id new_details w).2.
Proof. unfold modify_order, same_for_ticks. by repeat case_match. Qed.

(** X16.  What the ticks place does not depend on cancellations and
    modifications.  Tick evaluation reads [order_cache] and the index, and
    neither [cancel_order] nor [modify_order] writes them: after either
    call, whatever its outcome, any sequence of ticks makes the same calls
    to the broker and leaves the same [order_cache] as it would have
    without the call. *)
Theorem ticks_ignore_cancel_and_modify ticks env id new_details w :
  broker (run_ticks ticks (cancel_order env id w).2) = broker (run_ticks ticks w) ∧
  order_cache (mem (run_ticks ticks (cancel_order env id w).2))
    = order_cache (mem (run_ticks ticks w)) ∧
  broker (run_ticks ticks (modify_order env id new_details w).2)
    = broker (run_ticks ticks w) ∧
  order_cache (mem (run_ticks ticks (modify_order env id new_details w).2))
    = order_cache (mem (run_ticks ticks w)).
Proof.
  destruct (run_ticks_sim ticks w _ (cancel_order_same_for_ticks env id w))
    as (Hc & _ & Hb).
  destruct (run_ticks_sim ticks w _
              (modify_order_same_for_ticks env id new_details w))
    as (Hc' & _ & Hb').
  done.
Qed.

(** ** Status updates pushed by the broker *)

(** X17.  [on_order_update] ignores an order that [orders] does not hold;
    it never writes [order_cache], the index or the broker trace, so it
    does not change what ticks evaluate; and once a terminal status
    (COMPLETE, REJECTED, CANCELLED) has been handled with the store
    reachable, the order is gone from [orders] and any further update for
    it changes nothing. *)
Theorem on_order_update_terminal_once env id status ex w :
  (orders (mem w) !! id = None → on_order_update env id status ex w = w) ∧
  same_for_ticks w (on_order_update env id status ex w) ∧
  (status ∈ ["COMPLETE"; "REJECTED"; "CANCELLED"] →
   db_ok env (AtCompletion id) = true →
   orders (mem (on_order_update env id status ex w)) !! id = None ∧
   ∀ env' status' ex',
     on_order_update env' id status' ex' (on_order_update env id status ex w)
       = on_order_update env id status ex w).
Proof.
  split; [|split].
  - intros Hnone. unfold on_order_update. by rewrite Hnone.
  - unfold on_order_update, _complete_order, same_for_ticks.
    by repeat case_match.
  - intros Hterm Hdb.
    assert (orders (mem (on_order_update env id status ex w)) !! id = None)
      as Hgone.
    { unfold on_order_update.
      destruct (orders (mem w) !! id) eqn:Ho; [|done].
      rewrite bool_decide_eq_true_2 by done.
      unfold _complete_order. rewrite Hdb. simpl. apply lookup_delete_eq. }
    split; [done|]. intros env' status' ex'.
    unfold on_order_update at 1. by rewrite Hgone.
Qed.

Lemma on_order_update_terminal_once_witness :
  orders (mem (on_order_update fair_env 1 "REJECTED" None
                 (world_with (sample_order 1 "MARKET" "BUY" None None 1 0))))
    !! 1 = None.
Proof.
  apply (proj2 (proj2 (on_order_update_terminal_once fair_env 1 "REJECTED" None
                 (world_with (sample_order 1 "MARKET" "BUY" None None 1 0))))).
  - apply elem_of_cons. right. apply list_elem_of_here.
  - reflexivity.
Defined.

(** ** Start-up *)

Lemma same_orders_trans w1 w2 w3 :
  same_orders w1 w2 → same_orders w2 w3 → same_orders w1 w3.
Proof.
  unfold same_orders. intros (?&?&?&?) (?&?&?&?). repeat split; congruence.
Qed.

(** With nothing indexed, ticks only refresh the price view. *)
Lemma run_ticks_empty_index ticks w :
  orders_by_instrument (mem w) = ∅ →
  same_orders w (run_ticks ticks w).
Proof.
  unfold run_ticks. revert w.
  induction ticks as [|[env tick] ticks IH]; intros w Hix; simpl; [done|].
  assert (_process_tick_data env tick w =
            on_mem (set_tick_data
                      (<[tick_instrument_token tick := Some (last_price tick)]>))
              (on_mem (set_tick_cache
                         (<[tick_instrument_token tick := (last_price tick, now env)]>))
                 w)) as ->.
  { unfold _process_tick_data. simpl. by rewrite Hix, lookup_empty. }
  eapply same_orders_trans; [|apply IH; exact Hix]. done.
Qed.

(** X19.  What start-up recovers and what becomes of it.  On a manager
    just constructed, [_init_caches] puts into [order_cache] the rows whose
    status is PENDING or PARTIALLY_EXECUTED, read back without a
    [triggered] mark, and no other order (nothing at all if the store is
    unreachable), whether or not the instruments can be read after them.
    It does not index them: until an order is added again, no tick
    evaluates a recovered order, so no call is made to the broker and
    neither [order_cache] nor the store changes. *)
Theorem recovered_orders_are_not_evaluated db_up instruments_ok d ticks id o :
  (order_cache (mem (_init_caches db_up instruments_ok (constructed d))) !! id
     = Some o ↔
   db_up = true ∧
   ∃ r, pending_orders d !! id = Some r ∧
        active_status (row_status r) = true ∧ o = order_of_row r) ∧
  broker (run_ticks ticks (_init_caches db_up instruments_ok (constructed d)))
    = [] ∧
  order_cache
    (mem (run_ticks ticks (_init_caches db_up instruments_ok (constructed d))))
    = order_cache (mem (_init_caches db_up instruments_ok (constructed d))) ∧
  store (run_ticks ticks (_init_caches db_up instruments_ok (constructed d))) = d.
Proof.
  split.
  - unfold _init_caches. destruct db_up; simpl.
    + destruct instruments_ok; simpl;
        rewrite lookup_union, lookup_empty, lookup_fmap;
        rewrite (right_id None union);
        rewrite fmap_Some; setoid_rewrite map_lookup_filter_Some; simpl;
        (split;
         [intros (r & [Hr Ha] & ->); split; [done|]; by exists r
         |intros (_ & r & Hr & Ha & ->); by exists r]).
    + rewrite lookup_empty. split; [discriminate|]. by intros [[=] _].
  - destruct (run_ticks_empty_index ticks
                (_init_caches db_up instruments_ok (constructed d)))
      as (Hc & _ & Hs & Hb).
    { unfold _init_caches. by destruct db_up, instruments_ok. }
    rewrite Hc, Hs, Hb. unfold _init_caches. by destruct db_up, instruments_ok.
Qed.

Lemma recovered_orders_are_not_evaluated_witness :
  order_cache (mem (_init_caches true false (constructed
    (store (world_with (sample_order 1 "MARKET" "BUY" None None 1 0)))))) !! 1
    = Some (sample_order 1 "MARKET" "BUY" None None 1 0).
Proof.
  apply (proj2 (proj1 (recovered_orders_are_not_evaluated true false
           (store (world_with (sample_order 1 "MARKET" "BUY" None None 1 0)))
           [] 1 (sample_order 1 "MARKET" "BUY" None None 1 0)))).
  split; [reflexivity|].
  exists (mkRow (sample_order 1 "MARKET" "BUY" None None 1 0) "PENDING" None None).
  repeat split; reflexivity.
Defined.

(** ** Completion again, and executions the store did not record *)

(** X20.  Evaluating an order that is at its limit, tick after tick, is
    harmless.  Once such an evaluation has completed the order with the
    store reachable, every further evaluation of it makes no call to the
    broker and leaves the manager as it is; in the store it does no more
    than run the completing [UPDATE] again (which sets the status the row
    has already, and the completion time anew): no row changes its
    status, its order columns or its last price, and [order_executions]
    gains nothing. *)
Theorem recompletion_changes_nothing env env' id order tick tick' w :
  execution_limit order ≤ executions_done order →
  db_ok env (AtCompletion id) = true →
  let w1 := _check_and_execute_order env id order tick w in
  let w2 := _check_and_execute_order env' id order tick' w1 in
  mem w2 = mem w1 ∧
  broker w2 = broker w1 ∧
  store w2 = (if db_ok env' (AtCompletion id)
              then sql_set_status id "COMPLETED" (store w1) else store w1) ∧
  order_executions (store w2) = order_executions (store w1) ∧
  (∀ k, row_status <$> pending_orders (store w2) !! k
          = row_status <$> pending_orders (store w1) !! k) ∧
  (∀ k, row_order <$> pending_orders (store w2) !! k
          = row_order <$> pending_orders (store w1) !! k) ∧
  (∀ k, row_last_execution_price <$> pending_orders (store w2) !! k
          = row_last_execution_price <$> pending_orders (store w1) !! k).
Proof.
  intros Hge Hdb w1 w2. subst w2 w1. unfold _check_and_execute_order.
  destruct (Z.leb_spec (execution_limit order) (executions_done order)); [|lia].
  unfold _complete_order. rewrite Hdb. simpl.
  destruct (db_ok env' (AtCompletion id)); simpl; [|done].
  split; [unfold set_orders; simpl; by rewrite delete_delete_eq|].
  do 3 (split; [done|]).
  repeat split; intros k; (destruct (decide (k = id)) as [->|Hne];
    [rewrite !lookup_alter_eq; by destruct (pending_orders (store w) !! id)
    |by rewrite !lookup_alter_ne]).
Qed.

Lemma recompletion_changes_nothing_witness :
  let o := sample_order 1 "MARKET" "BUY" None None 1 1 in
  let w1 := _check_and_execute_order fair_env 1 o (tick_at 100) (world_with o) in
  let w2 := _check_and_execute_order fair_env 1 o (tick_at 101) w1 in
  mem w2 = mem w1 ∧
  broker w2 = broker w1 ∧
  row_status <$> pending_orders (store w2) !! 1 = Some "COMPLETED".
Proof.
  destruct (recompletion_changes_nothing fair_env fair_env 1
              (sample_order 1 "MARKET" "BUY" None None 1 1) (tick_at 100)
              (tick_at 101)
              (world_with (sample_order 1 "MARKET" "BUY" None None 1 1)))
    as (Hm & Hb & _ & _ & Hs & _).
  - simpl. lia.
  - reflexivity.
  - split; [exact Hm|]. split; [exact Hb|]. rewrite Hs. reflexivity.
Defined.

(** X21.  An execution the store could not record is not recorded later.
    When the broker accepts the placement that brings an order to its
    limit and the store is unreachable for the write that follows, the
    counter in [order_cache] has moved and the store has not.  The next
    tick completes the order through the limit guard without placing it
    again: the row ends COMPLETED with the counter it had and the price
    columns it had, and [order_executions] has no row for the execution. *)
Theorem unrecorded_execution_stays_unrecorded
    env env' id order tick tick' r w :
  order_cache (mem w) !! id = Some order →
  triggered order = false →
  executions_done order + 1 = execution_limit order →
  should_execute order (last_price tick) = Ok true →
  place_order_ok env id = true →
  db_ok env (AtExecution id) = false →
  db_ok env' (AtCompletion id) = true →
  pending_orders (store w) !! id = Some r →
  let w1 := evaluate_indexed env tick w id in
  let w2 := evaluate_indexed env' tick' w1 id in
  store w1 = store w ∧
  order_cache (mem w1) !! id = Some (incr_executions order) ∧
  broker w2 = (broker w ++ [placement_of id order true])%list ∧
  order_executions (store w2) = order_executions (store w) ∧
  pending_orders (store w2) !! id
    = Some (mkRow (row_order r) "COMPLETED" (row_last_execution_price r)
                  (row_exchange_order_id r)).
Proof.
  intros Hcache Htr Hreach Hex Hpl Hdb Hdb' Hrow w1 w2.
  assert (w1 = logs ERROR
                 (on_mem (set_order_cache (<[id := incr_executions order]>))
                    (calls_broker (placement_of id order true) (logs INFO w))))
    as Hw1.
  { subst w1. unfold evaluate_indexed. rewrite Hcache, Htr.
    unfold _check_and_execute_order. below_limit order.
    by rewrite Hex, Hpl, Hdb. }
  assert (w2 = _complete_order env' id "COMPLETED" (logs INFO w1)) as Hw2.
  { subst w2. unfold evaluate_indexed. rewrite Hw1. simpl.
    rewrite lookup_insert_eq.
    change (triggered (incr_executions order)) with (triggered order).
    rewrite Htr. unfold _check_and_execute_order.
    destruct (Z.leb_spec (execution_limit (incr_executions order))
                         (executions_done (incr_executions order)));
      [done | simpl in *; lia]. }
  split; [by rewrite Hw1|].
  split; [rewrite Hw1; simpl; apply lookup_insert_eq|].
  rewrite Hw2. unfold _complete_order. rewrite Hdb'. rewrite Hw1. simpl.
  split; [done|]. split; [done|].
  by rewrite lookup_alter_eq, Hrow.
Qed.

Lemma unrecorded_execution_stays_unrecorded_witness :
  let o := sample_order 1 "MARKET" "BUY" None None 1 0 in
  let env := mkEnv (λ _, Some 5) (λ _, true)
               (λ s, match s with AtExecution _ => false | _ => true end) true 0 in
  let w := world_with o in
  let w1 := evaluate_indexed env (tick_at 100) w 1 in
  let w2 := evaluate_indexed fair_env (tick_at 101) w1 1 in
  store w1 = store w ∧
  order_cache (mem w1) !! 1 = Some (incr_executions o) ∧
  broker w2 = (broker w ++ [placement_of 1 o true])%list ∧
  order_executions (store w2) = order_executions (store w) ∧
  pending_orders (store w2) !! 1 = Some (mkRow o "COMPLETED" None None).
Proof.
  apply (unrecorded_execution_stays_unrecorded
           (mkEnv (λ _, Some 5) (λ _, true)
              (λ s, match s with AtExecution _ => false | _ => true end) true 0)
           fair_env 1 (sample_order 1 "MARKET" "BUY" None None 1 0)
           (tick_at 100) (tick_at 101)
           (mkRow (sample_order 1 "MARKET" "BUY" None None 1 0) "PENDING" None None)
           (world_with (sample_order 1 "MARKET" "BUY" None None 1 0)));
    reflexivity.
Defined.

(** ** What is sent to the broker *)

Lemma placement_of_counted_up id o o' b :
  counted_up o o' → placement_of id o' b = placement_of id o b.
Proof. intros (-> & _). reflexivity. Qed.

(** X22.  The calls made for an order carry the data it was cached with.
    Along any sequence of ticks, every call added to the trace for an
    order has the variety, symbol, operation, quantity, product, order type
    and validity of the order as [order_cache] held it at the start, and
    the exchange NSE. *)
Theorem placements_carry_cached_order ticks id order w :
  order_cache (mem w) !! id = Some order →
  ∃ calls,
    placements_for id (broker (run_ticks ticks w))
      = (placements_for id (broker w) ++ calls)%list ∧
    Forall (placed_as id order) calls.
Proof.
  intros Hcache.
  pose (Inv := λ w' : World,
    cache_counted_up id order w' ∧
    ∃ calls, placements_for id (broker w')
               = (placements_for id (broker w) ++ calls)%list ∧
             Forall (placed_as id order) calls).
  assert (Inv (run_ticks ticks w)) as [_ H]; [|exact H].
  unfold run_ticks. apply foldl_invariant.
  { split; [exists order; split; [done | apply counted_up_refl]|].
    exists []. by rewrite app_nil_r. }
  intros a [env tick] Ha. simpl. unfold _process_tick_data.
  apply foldl_invariant; [exact Ha|].
  clear a Ha. intros a k [Hup (calls & Hcalls & Hall)].
  split; [by apply evaluate_indexed_counted_up|].
  destruct (decide (k = id)) as [->|Hne].
  - destruct Hup as (o' & Ho' & Hc). unfold evaluate_indexed. rewrite Ho'.
    destruct (triggered o'); [by exists calls|].
    destruct (check_and_execute_broker env id o' tick a) as [-> | (_ & _ & ->)];
      [by exists calls|].
    exists (calls ++ [placement_of id o' (place_order_ok env id)])%list.
    split.
    + unfold placements_for at 1. rewrite filter_app.
      rewrite (filter_cons_True _ (placement_of id o' _)) by done.
      rewrite filter_nil. fold (placements_for id (broker a)).
      by rewrite Hcalls, app_assoc.
    + apply Forall_app. split; [done|]. apply Forall_singleton.
      unfold placed_as. simpl. by rewrite (placement_of_counted_up _ _ _ _ Hc).
  - destruct (evaluate_indexed_other env tick a k id Hne) as (_ & _ & _ & ->).
    by exists calls.
Qed.

Lemma placements_carry_cached_order_witness :
  ∃ calls,
    placements_for 1 (broker (run_ticks [(fair_env, tick_at 100)]
        (world_with (sample_order 1 "MARKET" "BUY" None None 2 0))))
      = (placements_for 1
           (broker (world_with (sample_order 1 "MARKET" "BUY" None None 2 0)))
         ++ calls)%list ∧
    Forall (placed_as 1 (sample_order 1 "MARKET" "BUY" None None 2 0)) calls.
Proof.
  apply (placements_carry_cached_order [(fair_env, tick_at 100)] 1
           (sample_order 1 "MARKET" "BUY" None None 2 0)
           (world_with (sample_order 1 "MARKET" "BUY" None None 2 0))).
  reflexivity.
Defined.

(** ** Subscriptions *)

Lemma filter_none_left (P : Z → Prop) `{∀ x, Decision (P x)} (l : list Z) :
  Forall (λ x, ¬ P x) l → filter P l = [].
Proof.
  induction 1 as [|x l Hx _ IH]; [done|].
  by rewrite filter_cons_False.
Qed.

(** X23.  Subscribing is idempotent.  On a connected feed that accepts the
    subscription, [subscribe_instruments] returns normally with every
    requested instrument on record, and a second request for the same
    instruments makes no call to the feed and changes nothing. *)
Theorem subscribe_instruments_idempotent env env' insts w :
  connection_ready (mem w) = true →
  subscribe_ok env = true →
  (subscribe_instruments env insts w).1 = Ok () ∧
  (∀ i, i ∈ insts →
        i ∈ subscribed_instruments (mem (subscribe_instruments env insts w).2)) ∧
  subscribe_instruments env' insts (subscribe_instruments env insts w).2
    = (Ok (), (subscribe_instruments env insts w).2).
Proof.
  intros Hready Hok.
  unfold subscribe_instruments at 1 2 4 5. rewrite Hready, Hok. simpl.
  destruct (filter (λ i, i ∉ subscribed_instruments (mem w)) insts)
    as [|n new] eqn:Hnew; simpl.
  - split; [done|]. split.
    + intros i Hi. destruct (decide (i ∈ subscribed_instruments (mem w)));
        [done|].
      assert (i ∈ filter (λ i, i ∉ subscribed_instruments (mem w)) insts) as Hin
        by (by apply list_elem_of_filter).
      rewrite Hnew in Hin. by apply not_elem_of_nil in Hin.
    + unfold subscribe_instruments. by rewrite Hready, Hnew.
  - split; [done|].
    assert (∀ i, i ∈ insts →
                 i ∈ (subscribed_instruments (mem w) ++ n :: new)%list) as Hall.
    { intros i Hi. apply elem_of_app.
      destruct (decide (i ∈ subscribed_instruments (mem w))); [by left|].
      right. rewrite <- Hnew. by apply list_elem_of_filter. }
    split; [done|].
    unfold subscribe_instruments. simpl. rewrite Hready. simpl.
    rewrite filter_none_left; [done|].
    apply Forall_forall. intros i Hi Hnot. by apply Hnot, Hall.
Qed.

Lemma subscribe_instruments_idempotent_witness :
  (subscribe_instruments fair_env [5; 6] blank_world).1 = Ok () ∧
  (∀ i, i ∈ [5; 6] →
        i ∈ subscribed_instruments
              (mem (subscribe_instruments fair_env [5; 6] blank_world).2)) ∧
  subscribe_instruments fair_env [5; 6]
      (subscribe_instruments fair_env [5; 6] blank_world).2
    = (Ok (), (subscribe_instruments fair_env [5; 6] blank_world).2).
Proof.
  apply (subscribe_instruments_idempotent fair_env fair_env [5; 6] blank_world);
    reflexivity.
Defined.

(** ** What no operation does *)

Lemma process_tick_outside env tick w :
  instrument_cache (mem (_process_tick_data env tick w)) = instrument_cache (mem w) ∧
  token_memo (mem (_process_tick_data env tick w)) = token_memo (mem w) ∧
  orders_by_instrument (mem (_process_tick_data env tick w))
    = orders_by_instrument (mem w) ∧
  order_queue (mem (_process_tick_data env tick w)) = order_queue (mem w) ∧
  db_queue (mem (_process_tick_data env tick w)) = db_queue (mem w) ∧
  subscribed_instruments (mem (_process_tick_data env tick w))
    = subscribed_instruments (mem w) ∧
  connection_ready (mem (_process_tick_data env tick w))
    = connection_ready (mem w) ∧
  feed (_process_tick_data env tick w) = feed w.
Proof.
  unfold _process_tick_data.
  match goal with
  | |- context [foldl (evaluate_indexed env tick) ?w0 ?l] =>
      destruct (evaluate_all_frame env tick l w0)
        as ((H1&H2&_&_&H5&H6&H7&H8&H9) & Hfeed)
  end.
  by rewrite H1, H2, H5, H6, H7, H8, H9, Hfeed.
Qed.

(** X24.  Tick evaluation works on orders and prices only.  Along any
    sequence of ticks nothing is put on or taken off [db_queue] and
    [order_queue], the index gains and loses no entry, no instrument is
    subscribed or put on record, the ready flag and the token caches stay
    as they are. *)
Theorem ticks_leave_queues_index_and_feed ticks w :
  instrument_cache (mem (run_ticks ticks w)) = instrument_cache (mem w) ∧
  token_memo (mem (run_ticks ticks w)) = token_memo (mem w) ∧
  orders_by_instrument (mem (run_ticks ticks w)) = orders_by_instrument (mem w) ∧
  order_queue (mem (run_ticks ticks w)) = order_queue (mem w) ∧
  db_queue (mem (run_ticks ticks w)) = db_queue (mem w) ∧
  subscribed_instruments (mem (run_ticks ticks w))
    = subscribed_instruments (mem w) ∧
  connection_ready (mem (run_ticks ticks w)) = connection_ready (mem w) ∧
  feed (run_ticks ticks w) = feed w.
Proof.
  unfold run_ticks. revert w.
  induction ticks as [|[env tick] ticks IH]; intros w; simpl; [done|].
  destruct (IH (_process_tick_data env tick w))
    as (-> & -> & -> & -> & -> & -> & -> & ->).
  apply process_tick_outside.
Qed.

Lemma keeps_orders_refl w : keeps_orders w w.
Proof. by unfold keeps_orders. Qed.

Lemma keeps_orders_trans w1 w2 w3 :
  keeps_orders w1 w2 → keeps_orders w2 w3 → keeps_orders w1 w3.
Proof. unfold keeps_orders. intros [H1 H2] [H3 H4]. split; eauto. Qed.

Lemma same_for_ticks_keeps w w' : same_for_ticks w w' → keeps_orders w w'.
Proof. intros (Hc & Hi & _). unfold keeps_orders. by rewrite Hc, Hi. Qed.

Lemma evaluate_indexed_keeps env tick w k :
  keeps_orders w (evaluate_indexed env tick w k).
Proof.
  split.
  - intros id Hid. unfold evaluate_indexed.
    repeat case_match; try done.
    match goal with
    | |- context [_check_and_execute_order env k ?o tick w] =>
        destruct (check_and_execute_cache env k o tick w) as [-> | [_ ->]]
    end; [done|].
    rewrite lookup_insert. case_decide; [eauto | done].
  - intros t id Hid.
    destruct (evaluate_indexed_frame env tick w k) as [(_&_&_&_&->&_) _].
    done.
Qed.

Lemma evaluate_all_keeps env tick l w :
  keeps_orders w (foldl (evaluate_indexed env tick) w l).
Proof.
  revert w. induction l as [|k l IH]; intros w; simpl;
    [apply keeps_orders_refl|].
  eapply keeps_orders_trans; [apply evaluate_indexed_keeps | apply IH].
Qed.

Lemma process_tick_keeps env tick w :
  keeps_orders w (_process_tick_data env tick w).
Proof.
  unfold _process_tick_data.
  eapply keeps_orders_trans; [|apply evaluate_all_keeps]. done.
Qed.

Lemma add_order_keeps env order_details w :
  keeps_orders w (add_order env order_details w).2.
Proof.
  destruct (_get_instrument_token env (trading_symbol order_details) w)
    as [[t|e] w1] eqn:Hres.
  - destruct (add_order_effect env order_details w t w1 Hres)
      as (Hc & _ & Hi & _).
    unfold keeps_orders. rewrite Hc, Hi. split; [|done].
    intros id Hid. rewrite lookup_insert. case_decide; [eauto | done].
  - unfold add_order. rewrite Hres. simpl.
    pose proof (get_instrument_token_frame env (trading_symbol order_details) w)
      as (_&Hc&_&_&Hi&_).
    rewrite Hres in Hc, Hi. simpl in Hc, Hi.
    unfold keeps_orders. simpl. by rewrite Hc, Hi.
Qed.

Lemma subscribe_instruments_same_for_ticks env insts w :
  same_for_ticks w (subscribe_instruments env insts w).2 ∧
  store (subscribe_instruments env insts w).2 = store w.
Proof. unfold subscribe_instruments, same_for_ticks. by repeat case_match. Qed.

Lemma perform_keeps w op : keeps_orders w (perform w op).
Proof.
  destruct op; simpl.
  - apply process_tick_keeps.
  - apply add_order_keeps.
  - apply same_for_ticks_keeps, subscribe_instruments_same_for_ticks.
  - apply keeps_orders_refl.
  - apply keeps_orders_refl.
  - apply same_for_ticks_keeps, modify_order_same_for_ticks.
  - apply same_for_ticks_keeps, cancel_order_same_for_ticks.
  - apply same_for_ticks_keeps.
    unfold on_order_update, _complete_order, same_for_ticks.
    by repeat case_match.
  - unfold on_connect. simpl. by repeat case_match.
  - done.
Qed.

(** X25.  No entry point takes an order out of [order_cache] or out of the
    instrument index.  Whatever sequence of ticks, admissions,
    subscriptions, worker starts, modifications, cancellations, status
    updates, connections and disconnections is performed, an order that
    was cached is still cached and an index entry that was there is still
    there (the eviction of the cache by capacity is not part of the
    model). *)
Theorem no_operation_removes_an_order ops w :
  keeps_orders w (perform_all ops w).
Proof.
  unfold perform_all. revert w.
  induction ops as [|op ops IH]; intros w; simpl; [apply keeps_orders_refl|].
  eapply keeps_orders_trans; [apply perform_keeps | apply IH].
Qed.

Lemma add_order_nodup env order_details w :
  NoDup (subscribed_instruments (mem w)) →
  NoDup (subscribed_instruments (mem (add_order env order_details w).2)).
Proof.
  intros Hnd.
  pose proof (get_instrument_token_frame env (trading_symbol order_details) w)
    as (_&_&_&_&_&_&_&Hsub&_).
  destruct (_get_instrument_token env (trading_symbol order_details) w)
    as [[t|e] w1] eqn:Hres; simpl in Hsub.
  - rewrite (add_order_resolved _ _ _ _ _ Hres).
    case_bool_decide as Hin; simpl; [by rewrite Hsub|].
    rewrite subscribe_one by done. simpl.
    destruct (connection_ready (mem w1)); simpl; [|by rewrite Hsub].
    destruct (subscribe_ok env); simpl; [|by rewrite Hsub].
    apply NoDup_app. split; [by rewrite Hsub|]. split.
    + intros x Hx ->%list_elem_of_singleton. done.
    + apply NoDup_singleton.
  - unfold add_order. rewrite Hres. simpl. by rewrite Hsub.
Qed.

(** A request that names no instrument twice keeps the record free of
    duplicates: the instruments it adds are not on record. *)
Lemma subscribe_instruments_nodup env insts w :
  NoDup insts →
  NoDup (subscribed_instruments (mem w)) →
  NoDup (subscribed_instruments (mem (subscribe_instruments env insts w).2)).
Proof.
  intros Hreq Hnd. unfold subscribe_instruments.
  destruct (connection_ready (mem w)); simpl; [|done].
  destruct (filter (λ i, i ∉ subscribed_instruments (mem w)) insts)
    as [|n new] eqn:Hnew; [done|].
  destruct (subscribe_ok env); simpl; [|done].
  rewrite <- Hnew. apply NoDup_app. split; [done|]. split.
  - intros x Hx Hx'. by apply list_elem_of_filter in Hx' as [Hnot _].
  - by apply NoDup_filter.
Qed.

Lemma perform_subscribed w op :
  is_tick op = true ∨ can_subscribe op = true ∨
  (subscribed_instruments (mem (perform w op)) = subscribed_instruments (mem w) ∧
   feed (perform w op) = feed w ∧ broker (perform w op) = broker w).
Proof.
  destruct op; simpl; try (by left); try (by right; left); right; right.
  - done.
  - done.
  - unfold modify_order. by repeat case_match.
  - unfold cancel_order. by repeat case_match.
  - unfold on_order_update, _complete_order. by repeat case_match.
  - done.
Qed.

Lemma perform_nodup w op :
  requests_once op →
  NoDup (subscribed_instruments (mem w)) →
  NoDup (subscribed_instruments (mem (perform w op))).
Proof.
  intros Hreq Hnd.
  destruct (perform_subscribed w op) as [Ht | [Hs | (-> & _)]]; [| |done].
  - destruct op; try discriminate. simpl.
    by destruct (process_tick_outside env tick w) as (_&_&_&_&_&->&_).
  - destruct op; try discriminate; simpl.
    + by apply add_order_nodup.
    + by apply subscribe_instruments_nodup.
    + by destruct (on_connect_effect env w) as (-> & _).
Qed.

(** X26.  The record of subscriptions stays free of duplicates as long as
    no direct call of [subscribe_instruments] names an instrument twice:
    if [subscribed_instruments] lists no instrument twice, it lists none
    twice after any sequence of operations of the manager whose requests
    to subscribe are free of repetitions.  ([subscribe_instruments]
    compares a request with the record and not with itself: an instrument
    requested twice in one call is recorded twice.) *)
Theorem subscriptions_stay_duplicate_free ops w :
  NoDup (subscribed_instruments (mem w)) →
  Forall requests_once ops →
  NoDup (subscribed_instruments (mem (perform_all ops w))).
Proof.
  unfold perform_all. intros Hnd Hall. revert w Hnd.
  induction Hall as [|op ops Hop _ IH]; intros w Hnd; simpl; [done|].
  by apply IH, perform_nodup.
Qed.

Lemma subscriptions_stay_duplicate_free_witness :
  NoDup (subscribed_instruments (mem (perform_all
    [OpAddOrder fair_env (sample_order 1 "MARKET" "BUY" None None 1 0);
     OpSubscribe fair_env [5; 6; 7];
     OpAddOrder fair_env (sample_order 2 "MARKET" "SELL" None None 1 0);
     OpTick fair_env (tick_at 100)]
    blank_world))).
Proof.
  apply (subscriptions_stay_duplicate_free
           [OpAddOrder fair_env (sample_order 1 "MARKET" "BUY" None None 1 0);
            OpSubscribe fair_env [5; 6; 7];
            OpAddOrder fair_env (sample_order 2 "MARKET" "SELL" None None 1 0);
            OpTick fair_env (tick_at 100)]
           blank_world).
  - apply NoDup_nil_2.
  - repeat (apply Forall_cons; split); try exact I; [|apply Forall_nil_2].
    simpl. apply (bool_decide_unpack _). vm_compute. exact I.
Defined.

(** A request that repeats an instrument puts it on record twice. *)
Example repeated_request_is_recorded_twice :
  subscribed_instruments
    (mem (subscribe_instruments fair_env [5; 6]
            (subscribe_instruments fair_env [7; 7] blank_world).2).2)
    = [7; 7; 5; 6].
Proof. reflexivity. Qed.

Lemma add_order_broker env order_details w :
  broker (add_order env order_details w).2 = broker w.
Proof.
  pose proof (get_instrument_token_frame env (trading_symbol order_details) w)
    as (_&_&_&_&_&_&_&_&_&_&Hb&_).
  destruct (_get_instrument_token env (trading_symbol order_details) w)
    as [[t|e] w1] eqn:Hres; simpl in Hb.
  - by destruct (add_order_effect env order_details w t w1 Hres) as (_&_&_&->).
  - unfold add_order. by rewrite Hres.
Qed.

Lemma add_order_index env order_details w :
  orders_by_instrument (mem (add_order env order_details w).2)
    = orders_by_instrument (mem w).
Proof.
  pose proof (get_instrument_token_frame env (trading_symbol order_details) w)
    as (_&_&_&_&Hi&_).
  destruct (_get_instrument_token env (trading_symbol order_details) w)
    as [[t|e] w1] eqn:Hres; simpl in Hi.
  - by destruct (add_order_effect env order_details w t w1 Hres) as (_&_&->&_).
  - unfold add_order. by rewrite Hres.
Qed.

(** Only a tick calls the broker. *)
Lemma perform_broker w op :
  is_tick op = false → broker (perform w op) = broker w.
Proof.
  intros Hop.
  destruct (perform_subscribed w op) as [Ht | [Hs | (_ & _ & Hb)]];
    [congruence | | done].
  destruct op; try discriminate; simpl.
  - apply add_order_broker.
  - unfold subscribe_instruments. by repeat case_match.
  - unfold on_connect. by repeat case_match.
Qed.

(** X27.  Only tick evaluation calls the broker, and only [add_order],
    [subscribe_instruments] and [on_connect] call the feed: a sequence of
    operations without a tick leaves the broker trace as it was, and a
    sequence without an admission, a request to subscribe or a connection
    leaves the subscriptions sent to the feed as they were. *)
Theorem broker_and_feed_callers ops w :
  (Forall (λ op, is_tick op = false) ops →
   broker (perform_all ops w) = broker w) ∧
  (Forall (λ op, can_subscribe op = false) ops →
   feed (perform_all ops w) = feed w).
Proof.
  unfold perform_all. split; intros Hall; revert w;
    induction Hall as [|op ops Hop _ IH]; intros w; simpl; try done;
    rewrite IH.
  - by apply perform_broker.
  - destruct (perform_subscribed w op) as [Ht | [Hs | (_ & Hf & _)]];
      [| congruence | done].
    destruct op; try discriminate; simpl.
    by destruct (process_tick_outside env tick w) as (_&_&_&_&_&_&_&->).
Qed.

Lemma broker_and_feed_callers_witness :
  broker (perform_all
    [OpAddOrder fair_env (sample_order 1 "MARKET" "BUY" None None 1 0);
     OpSubscribe fair_env [6]; OpHandleIncoming; OpDbWorker; OpCancel fair_env 1]
    blank_world) = broker blank_world.
Proof.
  apply (proj1 (broker_and_feed_callers
           [OpAddOrder fair_env (sample_order 1 "MARKET" "BUY" None None 1 0);
            OpSubscribe fair_env [6]; OpHandleIncoming; OpDbWorker;
            OpCancel fair_env 1]
           blank_world)).
  repeat constructor.
Defined.

(** ** What the worker loops were to do *)

Lemma perform_index w op :
  orders_by_instrument (mem (perform w op)) = orders_by_instrument (mem w).
Proof.
  destruct op; simpl.
  - by destruct (process_tick_outside env tick w) as (_&_&->&_).
  - apply add_order_index.
  - unfold subscribe_instruments. by repeat case_match.
  - done.
  - done.
  - unfold modify_order. by repeat case_match.
  - unfold cancel_order. by repeat case_match.
  - unfold on_order_update, _complete_order. by repeat case_match.
  - unfold on_connect. by repeat case_match.
  - done.
Qed.

(** X12.  Nothing enters the instrument index, so an order that is not
    indexed is never placed.  The index is written by the loop of
    [_handle_incoming_orders] only, and that method raises
    [AttributeError] before it reaches its loop.  Over any sequence of
    operations the index is what it was; and for an order the index does
    not list (such is every new order [add_order] admits) no call is made
    to the broker, whatever ticks arrive and whatever their prices. *)
Theorem unindexed_order_is_never_placed ops id w :
  (∀ t, id ∉ default [] (orders_by_instrument (mem w) !! t)) →
  orders_by_instrument (mem (perform_all ops w)) = orders_by_instrument (mem w) ∧
  placements_for id (broker (perform_all ops w)) = placements_for id (broker w).
Proof.
  intros Hnot. unfold perform_all.
  apply (foldl_invariant
    (λ a, orders_by_instrument (mem a) = orders_by_instrument (mem w) ∧
          placements_for id (broker a) = placements_for id (broker w)));
    [done|].
  intros a op [Hi Hb]. split; [by rewrite perform_index|].
  rewrite <- Hb. destruct (is_tick op) eqn:Hop.
  - destruct op; try discriminate. simpl. unfold _process_tick_data.
    match goal with
    | |- context [foldl (evaluate_indexed env tick) ?a0 ?l] =>
        destruct (evaluate_all_other env tick l a0 id) as (_ & _ & _ & Hp)
    end; [|exact Hp].
    simpl. rewrite Hi. apply Hnot.
  - by rewrite perform_broker.
Qed.

Lemma unindexed_order_is_never_placed_witness :
  let o := sample_order 1 "MARKET" "BUY" None None 1 0 in
  let w' := perform_all
              [OpAddOrder fair_env o; OpHandleIncoming;
               OpTick fair_env (tick_at 100)] blank_world in
  order_cache (mem w') !! 1 = Some o ∧
  order_queue (mem w') = [o] ∧
  orders_by_instrument (mem w') = orders_by_instrument (mem blank_world) ∧
  placements_for 1 (broker w') = placements_for 1 (broker blank_world).
Proof.
  split; [reflexivity|]. split; [reflexivity|].
  apply (unindexed_order_is_never_placed
           [OpAddOrder fair_env (sample_order 1 "MARKET" "BUY" None None 1 0);
            OpHandleIncoming; OpTick fair_env (tick_at 100)] 1 blank_world).
  intros t. simpl. rewrite lookup_empty. apply not_elem_of_nil.
Defined.

Lemma complete_order_rows env id status w :
  dom (pending_orders (store (_complete_order env id status w)))
    = dom (pending_orders (store w)).
Proof.
  unfold _complete_order. destruct (db_ok env _); simpl; [|done].
  apply dom_alter_L.
Qed.

Lemma check_and_execute_rows env id order tick w :
  dom (pending_orders (store (_check_and_execute_order env id order tick w)))
    = dom (pending_orders (store w)).
Proof.
  unfold _check_and_execute_order.
  repeat case_match; simpl; rewrite ?complete_order_rows; simpl;
    rewrite ?dom_alter_L; done.
Qed.

Lemma perform_rows w op :
  dom (pending_orders (store (perform w op))) = dom (pending_orders (store w)).
Proof.
  destruct op; simpl.
  - unfold _process_tick_data.
    apply (foldl_invariant
      (λ a, dom (pending_orders (store a)) = dom (pending_orders (store w))));
      [done|].
    intros a k Ha. unfold evaluate_indexed.
    repeat case_match; try done. by rewrite check_and_execute_rows.
  - by rewrite add_order_store.
  - by destruct (subscribe_instruments_same_for_ticks env insts w) as [_ ->].
  - done.
  - done.
  - unfold modify_order. repeat case_match; simpl; rewrite ?dom_alter_L; done.
  - unfold cancel_order. repeat case_match; simpl; rewrite ?dom_alter_L; done.
  - unfold on_order_update. repeat case_match; simpl;
      rewrite ?complete_order_rows; done.
  - unfold on_connect. by repeat case_match.
  - done.
Qed.

(** X14.  No row of [pending_orders] is ever inserted.  The [INSERT] is in
    [_db_insert_order], which runs only as a job of [db_queue]; the jobs
    put there are lost and [_db_worker] raises [AttributeError] before it
    reads the queue.  Over any sequence of operations the table has the
    rows it had, under the same keys; so an order that has no row (such is
    every order admitted by [add_order]) never gets one, and a
    cancellation of it finds nothing to update, however late it comes: it
    returns normally with a warning and changes nothing. *)
Theorem no_operation_inserts_a_row ops env id w :
  dom (pending_orders (store (perform_all ops w)))
    = dom (pending_orders (store w)) ∧
  (pending_orders (store w) !! id = None →
   db_ok env (AtCancel id) = true →
   pending_orders (store (perform_all ops w)) !! id = None ∧
   cancel_order env id (perform_all ops w)
     = (Ok (), logs WARNING (logs INFO (perform_all ops w)))).
Proof.
  assert (dom (pending_orders (store (perform_all ops w)))
            = dom (pending_orders (store w))) as Hdom.
  { unfold perform_all. apply foldl_invariant; [done|].
    intros a op Ha. by rewrite perform_rows. }
  split; [done|]. intros Hnone Hdb.
  assert (pending_orders (store (perform_all ops w)) !! id = None) as Hnone'.
  { apply not_elem_of_dom. rewrite Hdom. by apply not_elem_of_dom. }
  split; [done|].
  unfold cancel_order. simpl. rewrite Hdb. unfold pending_row. simpl.
  by rewrite Hnone'.
Qed.

Lemma no_operation_inserts_a_row_witness :
  let o := sample_order 1 "MARKET" "BUY" None None 1 0 in
  let w' := perform_all
              [OpAddOrder fair_env o; OpDbWorker; OpHandleIncoming;
               OpTick fair_env (tick_at 100)] blank_world in
  order_cache (mem w') !! 1 = Some o ∧
  pending_orders (store w') !! 1 = None ∧
  cancel_order fair_env 1 w' = (Ok (), logs WARNING (logs INFO w')).
Proof.
  split; [reflexivity|].
  apply (proj2 (no_operation_inserts_a_row
                  [OpAddOrder fair_env (sample_order 1 "MARKET" "BUY" None None 1 0);
                   OpDbWorker; OpHandleIncoming; OpTick fair_env (tick_at 100)]
                  fair_env 1 blank_world));
    reflexivity.
Defined.
